(** * ProductLookupService: criteria <-> product id lookup

    Shallow embedding of the two variants of [ProductLookupService]:

    - the plain variant ([productLookup.js]): two maps built once by the
      constructor, exact lookup in both directions and a linear partial search;
    - the enriched Angular variant: a re-runnable [initialize], a third map
      of addons and a tree walk that resolves the selected option of every
      criterion level.

    Modelling conventions.
    - A JavaScript string is a [string]: a finite sequence of code units,
      compared unit by unit (what the default [Array.prototype.sort] does).
    - A plain object used as a dictionary and a [Map] keyed by strings are
      both insertion-ordered association lists.  Writing an existing key
      replaces the value in place, writing a new key appends.  Property
      names are the object's own data keys (documents come from JSON).
      The service enumerates an object only to sort its keys or to test
      every pair, so the place JavaScript gives to integer-like keys in an
      enumeration plays no part.
    - [undefined] is [None]; a [TypeError] is the [Thrown] outcome.
    - [traverseTree] recurses on the children found by [Array.find]; it is
      defined by recursion on the depth of the tree, the proof that the
      children are shallower being part of the definition. *)

From Stdlib Require Import String Ascii List Bool Arith NArith Lia.
From Stdlib Require Import Permutation Sorted.
From Stdlib Require Import Recdef FunInd.
Import ListNotations.

Local Open Scope list_scope.

(* ================================================================= *)
(** ** The JavaScript runtime pieces the service relies on *)

Module Js.

(** Insertion-ordered dictionary with string keys: the common shape of a
    plain object and of a [Map<string, V>]. *)
Definition Dict (V : Type) : Type := list (string * V).

Section DictOps.
Context {V : Type}.

(** [obj[k]] / [map.get(k)] *)
Fixpoint get (d : Dict V) (k : string) : option V :=
  match d with
  | [] => None
  | (k', v) :: rest => if String.eqb k' k then Some v else get rest k
  end.

(** [obj[k] = v] / [map.set(k, v)] *)
Fixpoint set (d : Dict V) (k : string) (v : V) : Dict V :=
  match d with
  | [] => [(k, v)]
  | (k', v') :: rest =>
      if String.eqb k' k then (k', v) :: rest else (k', v') :: set rest k v
  end.

(** [Object.keys(obj)] *)
Definition keys (d : Dict V) : list string := map fst d.

(** [Object.entries(obj)], and the visiting order of [map.forEach] *)
Definition entries (d : Dict V) : list (string * V) := d.

(** An object literal / a parsed JSON object: no key occurs twice. *)
Definition wf (d : Dict V) : Prop := NoDup (keys d).
End DictOps.

(** The default comparison of [Array.prototype.sort] on strings. *)
Definition sortCompare (a b : string) : bool := String.leb a b.

Fixpoint sortInsert (x : string) (l : list string) : list string :=
  match l with
  | [] => [x]
  | y :: rest => if sortCompare x y then x :: l else y :: sortInsert x rest
  end.

(** [arr.sort()] on an array of strings (a stable sort; on a total order
    every sorting algorithm yields the same array). *)
Fixpoint sort (l : list string) : list string :=
  match l with
  | [] => []
  | x :: rest => sortInsert x (sort rest)
  end.

(** [arr.join(sep)] on an array of strings *)
Definition join (sep : string) (l : list string) : string :=
  String.concat sep l.

(** String conversion inside a template literal. *)
Definition toStr (v : option string) : string :=
  match v with
  | Some s => s
  | None => "undefined"%string
  end.

(** Truthiness of a possibly undefined string. *)
Definition truthy (v : option string) : bool :=
  match v with
  | Some s => negb (String.eqb s ""%string)
  | None => false
  end.

(** Outcome of a call that may throw. *)
Inductive outcome (A : Type) : Type :=
| Returned (a : A)
| Thrown.
Arguments Returned {A} a.
Arguments Thrown {A}.

End Js.

(* ================================================================= *)
(** ** Data model *)

Definition MatchCriteria : Type := Js.Dict string.

Inductive TreeNode : Type :=
  mkTreeNode {
      node_id : string;
      node_label : string;
      node_labelAr : string;
      node_type : string;
      node_required : bool;
      node_options : list TreeOption }
with TreeOption : Type :=
  mkTreeOption {
      opt_value : string;
      opt_label : string;
      opt_labelAr : string;
      opt_children : option TreeNode }.

Record Addon : Type :=
  mkAddon {
      addon_id : string;
      addon_name : string;
      addon_nameAr : string;
      addon_maxInstances : nat;
      addon_itemChoiceKey : string;
      addon_pricingKey : string;
      addon_tree : TreeNode }.

Record Product : Type :=
  mkProduct {
      product_id : string;
      product_addonType : string;
      product_matchCriteria : MatchCriteria }.

(** [attributes.addons] and [attributes.products] may be missing from the
    document; both initializers test them before iterating. *)
Record Attributes : Type :=
  mkAttributes {
      controlType : string;
      configGroupName : string;
      addons : option (list Addon);
      products : option (list Product) }.

Record ProductData : Type :=
  mkProductData { attributes : Attributes }.

Record EnrichedCriteria : Type :=
  mkEnrichedCriteria {
      ec_productId : string;
      ec_addonType : string;
      ec_matchCriteria : MatchCriteria;
      ec_selectedOptions : Js.Dict TreeOption;
      ec_addon : Addon }.

(* ================================================================= *)
(** ** Key codec (the same method body in both variants) *)

Definition generateCriteriaKey (criteria : MatchCriteria) : string :=
  let keys := Js.sort (Js.keys criteria) in
  Js.join "|"%string
          (map (fun key => (key ++ ":" ++ Js.toStr (Js.get criteria key))%string)
               keys).

(* ================================================================= *)
(** ** Plain variant: productLookup.js *)

Module Plain.

Record ProductLookupService : Type :=
  mkService {
      data : ProductData;
      criteriaToProductId : Js.Dict string;
      productIdToCriteria : Js.Dict MatchCriteria }.

(** Body of the [forEach] callback of [initialize]. *)
Definition register (s : ProductLookupService) (product : Product)
  : ProductLookupService :=
  let id := product_id product in
  let matchCriteria := product_matchCriteria product in
  let m1 := Js.set (productIdToCriteria s) id matchCriteria in
  let criteriaKey := generateCriteriaKey matchCriteria in
  let m2 := Js.set (criteriaToProductId s) criteriaKey id in
  mkService (data s) m2 m1.

Definition initialize (s : ProductLookupService) : ProductLookupService :=
  match products (attributes (data s)) with
  | None => s
  | Some ps => fold_left register ps s
  end.

(** [new ProductLookupService(jsonData)] *)
Definition new (jsonData : ProductData) : ProductLookupService :=
  initialize (mkService jsonData [] []).

(** The two exact lookups are one [Map.get] each: nothing in them can
    throw, the absent answer is [undefined]. *)
Definition getProductIdByCriteria (s : ProductLookupService)
           (criteria : MatchCriteria) : option string :=
  let key := generateCriteriaKey criteria in
  Js.get (criteriaToProductId s) key.

Definition getCriteriaByProductId (s : ProductLookupService)
           (productId : string) : option MatchCriteria :=
  Js.get (productIdToCriteria s) productId.

Definition getAllProducts (s : ProductLookupService)
  : list (string * MatchCriteria) :=
  fold_left (fun products '(id, criteria) => products ++ [(id, criteria)])
            (Js.entries (productIdToCriteria s)) [].

(** The inner [for ... of Object.entries(partialCriteria)] loop with its
    [break]: [matches] after the loop.  [criteria[key] !== value] holds
    when the property is missing or holds another string. *)
Fixpoint matchesLoop (criteria : MatchCriteria)
         (todo : list (string * string)) : bool :=
  match todo with
  | [] => true
  | (key, value) :: rest =>
      match Js.get criteria key with
      | Some v => if String.eqb v value then matchesLoop criteria rest else false
      | None => false
      end
  end.

Definition searchByPartialCriteria (s : ProductLookupService)
           (partialCriteria : MatchCriteria) : list (string * MatchCriteria) :=
  fold_left
    (fun results '(id, criteria) =>
       if matchesLoop criteria (Js.entries partialCriteria)
       then results ++ [(id, criteria)]
       else results)
    (Js.entries (productIdToCriteria s)) [].

End Plain.

(* ================================================================= *)
(** ** Enriched variant: the Angular service *)

(** Number of nested criterion levels of an option tree: a node without
    nested children has depth 1. *)
Fixpoint depth (node : TreeNode) : nat :=
  match node with
  | mkTreeNode _ _ _ _ _ options =>
      S ((fix below (opts : list TreeOption) : nat :=
            match opts with
            | [] => 0
            | opt :: rest => Nat.max (depthOpt opt) (below rest)
            end) options)
  end
with depthOpt (opt : TreeOption) : nat :=
  match opt with
  | mkTreeOption _ _ _ children =>
      match children with
      | None => 0
      | Some child => depth child
      end
  end.

Definition depthBelow (opts : list TreeOption) : nat :=
  fold_right (fun opt d => Nat.max (depthOpt opt) d) 0 opts.

Module Enriched.

(** The accumulator [{ [key: string]: TreeOption }].  The list keeps the
    entries in the order they were created, which is not the order in
    which JavaScript enumerates an object with integer-like keys; what is
    stated about an accumulator is about its entries and its reads, not
    about that order.  An id named [__proto__] is read as a data key. *)
Definition SelectedOptions : Type := Js.Dict TreeOption.

(** [node.options.find((opt) => opt.value === criteriaValue)] *)
Definition findOption (node : TreeNode) (criteriaValue : string)
  : option TreeOption :=
  find (fun opt => String.eqb (opt_value opt) criteriaValue) (node_options node).

Function traverseTree (node : TreeNode) (criteria : MatchCriteria)
         (selectedOptions : SelectedOptions) {measure depth node}
  : SelectedOptions :=
  match Js.get criteria (node_id node) with
  | None => selectedOptions
  | Some criteriaValue =>
      if Js.truthy (Some criteriaValue) then
        match findOption node criteriaValue with
        | None => selectedOptions
        | Some option =>
            match opt_children option with
            | None => Js.set selectedOptions (node_id node) option
            | Some children =>
                traverseTree children criteria
                             (Js.set selectedOptions (node_id node) option)
            end
        end
      else selectedOptions
  end.
Proof.
  intros node criteria selectedOptions criteriaValue _ _ option Hfind
         children Hchildren.
  unfold findOption in Hfind. apply find_some in Hfind.
  destruct Hfind as [Hin _].
  destruct node as [i l la t r opts]; simpl in *.
  apply Nat.lt_succ_r.
  induction opts as [|o rest IH]; [contradiction|].
  destruct Hin as [->|Hin].
  - destruct option as [v ol ola ch]; simpl in *. subst ch. apply Nat.le_max_l.
  - etransitivity; [now apply IH | apply Nat.le_max_r].
Defined.

(** The same walk with an explicit budget of call frames: [None] when the
    budget is exhausted before the walk returns. *)
Fixpoint traverseTreeFuel (fuel : nat) (node : TreeNode)
         (criteria : MatchCriteria) (selectedOptions : SelectedOptions)
  : option SelectedOptions :=
  match fuel with
  | O => None
  | S fuel' =>
      match Js.get criteria (node_id node) with
      | None => Some selectedOptions
      | Some criteriaValue =>
          if Js.truthy (Some criteriaValue) then
            match findOption node criteriaValue with
            | None => Some selectedOptions
            | Some option =>
                let selected := Js.set selectedOptions (node_id node) option in
                match opt_children option with
                | None => Some selected
                | Some children =>
                    traverseTreeFuel fuel' children criteria selected
                end
            end
          else Some selectedOptions
      end
  end.

Record ProductLookupService : Type :=
  mkService {
      criteriaToProductId : Js.Dict string;
      productIdToCriteria : Js.Dict MatchCriteria;
      addonsMap : Js.Dict Addon;
      data : option ProductData }.

(** [constructor()] : three empty maps, [data = null]. *)
Definition new : ProductLookupService := mkService [] [] [] None.

Definition registerAddon (s : ProductLookupService) (addon : Addon)
  : ProductLookupService :=
  mkService (criteriaToProductId s) (productIdToCriteria s)
            (Js.set (addonsMap s) (addon_id addon) addon) (data s).

Definition registerProduct (s : ProductLookupService) (product : Product)
  : ProductLookupService :=
  let id := product_id product in
  let matchCriteria := product_matchCriteria product in
  let m1 := Js.set (productIdToCriteria s) id matchCriteria in
  let criteriaKey := generateCriteriaKey matchCriteria in
  let m2 := Js.set (criteriaToProductId s) criteriaKey id in
  mkService m2 m1 (addonsMap s) (data s).

Definition initialize (s : ProductLookupService) (jsonData : ProductData)
  : ProductLookupService :=
  let s0 := mkService (criteriaToProductId s) (productIdToCriteria s)
                      (addonsMap s) (Some jsonData) in
  let s1 := match addons (attributes jsonData) with
            | Some l => fold_left registerAddon l s0
            | None => s0
            end in
  match products (attributes jsonData) with
  | Some l => fold_left registerProduct l s1
  | None => s1
  end.

Definition getProductIdByCriteria (s : ProductLookupService)
           (criteria : MatchCriteria) : option string :=
  let key := generateCriteriaKey criteria in
  Js.get (criteriaToProductId s) key.

(** [this.data.attributes.products.find(...)]: dereferencing [data = null]
    or a missing [products] array throws. *)
Definition findProduct (s : ProductLookupService) (productId : string)
  : Js.outcome (option Product) :=
  match data s with
  | None => Js.Thrown
  | Some d =>
      match products (attributes d) with
      | None => Js.Thrown
      | Some l =>
          Js.Returned (find (fun p => String.eqb (product_id p) productId) l)
      end
  end.

Definition getCriteriaByProductId (s : ProductLookupService)
           (productId : string) : Js.outcome (option EnrichedCriteria) :=
  match Js.get (productIdToCriteria s) productId with
  | None => Js.Returned None
  | Some matchCriteria =>
      match findProduct s productId with
      | Js.Thrown => Js.Thrown
      | Js.Returned None => Js.Returned None
      | Js.Returned (Some product) =>
          match Js.get (addonsMap s) (product_addonType product) with
          | None => Js.Returned None
          | Some addon =>
              let selectedOptions :=
                traverseTree (addon_tree addon) matchCriteria [] in
              Js.Returned
                (Some (mkEnrichedCriteria productId
                                          (product_addonType product)
                                          matchCriteria
                                          selectedOptions
                                          addon))
          end
      end
  end.

End Enriched.

(** The products sequence of a document, a missing one read as empty. *)
Definition productList (doc : ProductData) : list Product :=
  match products (attributes doc) with
  | Some l => l
  | None => []
  end.

Definition addonList (doc : ProductData) : list Addon :=
  match addons (attributes doc) with
  | Some l => l
  | None => []
  end.

Definition canonicalKeyOf (p : Product) : string :=
  generateCriteriaKey (product_matchCriteria p).

(** The order [sort] arranges keys in. *)
Definition keyLe (a b : string) : Prop := Js.sortCompare a b = true.

(** The text of one pair inside a canonical key. *)
Definition renderPair (p : string * string) : string :=
  (fst p ++ ":" ++ snd p)%string.

Definition pairKeyLe (p q : string * string) : Prop := keyLe (fst p) (fst q).

(** The pairs of an object listed by sorted key. *)
Definition sortedPairs (criteria : MatchCriteria) : list (string * string) :=
  map (fun key => (key, Js.toStr (Js.get criteria key)))
      (Js.sort (Js.keys criteria)).

(** The two [set] calls of the load loop, and the one of the addon loop. *)
Definition idEntry (m : Js.Dict MatchCriteria) (p : Product)
  : Js.Dict MatchCriteria :=
  Js.set m (product_id p) (product_matchCriteria p).

Definition keyEntry (m : Js.Dict string) (p : Product) : Js.Dict string :=
  Js.set m (canonicalKeyOf p) (product_id p).

Definition addonEntry (m : Js.Dict Addon) (a : Addon) : Js.Dict Addon :=
  Js.set m (addon_id a) a.

(** The test the partial search applies to a stored entry. *)
Definition entryMatches (partialCriteria : MatchCriteria)
           (entry : string * MatchCriteria) : bool :=
  Plain.matchesLoop (snd entry) (Js.entries partialCriteria).

(** The entry a product is stored as. *)
Definition entryOf (p : Product) : string * MatchCriteria :=
  (product_id p, product_matchCriteria p).

(* ================================================================= *)
(** ** A sample catalog *)

Module Sample.
Local Open Scope string_scope.

Definition cpuNode : TreeNode :=
  mkTreeNode "cpu" "CPU" "cpu-ar" "select" true
             [mkTreeOption "2-cpu" "2 CPU" "2-ar" None;
              mkTreeOption "4-cpu" "4 CPU" "4-ar" None].

Definition vendorNode : TreeNode :=
  mkTreeNode "vendor" "Vendor" "vendor-ar" "select" true
             [mkTreeOption "fortigate" "Fortigate" "fortigate-ar" (Some cpuNode);
              mkTreeOption "palo-alto" "Palo Alto" "palo-ar" None].

Definition firewall : Addon :=
  mkAddon "firewall" "Firewall" "firewall-ar" 4 "firewall" "VF_VM_FIREWALL"
          vendorNode.

Definition forti4 : Product :=
  mkProduct "8800190627841" "firewall"
            [("vendor", "fortigate"); ("cpu", "4-cpu")].

Definition forti2 : Product :=
  mkProduct "8796158984193" "firewall"
            [("vendor", "fortigate"); ("cpu", "2-cpu")].

Definition palo : Product :=
  mkProduct "01HE1D78EC698B5C41F4A889" "firewall" [("vendor", "palo-alto")].

(** Same criteria as [forti4] (in another insertion order), another id. *)
Definition forti4bis : Product :=
  mkProduct "9900000000001" "firewall"
            [("cpu", "4-cpu"); ("vendor", "fortigate")].

(** Same id as [palo], other criteria. *)
Definition paloBis : Product :=
  mkProduct "01HE1D78EC698B5C41F4A889" "waf" [("vendor", "palo-alto-v2")].

Definition document (addonSeq : option (list Addon))
           (productSeq : option (list Product)) : ProductData :=
  mkProductData (mkAttributes "tree" "firewall-group" addonSeq productSeq).

Definition catalog : ProductData :=
  document (Some [firewall]) (Some [forti4; forti2; palo]).

Definition catalogWithDuplicates : ProductData :=
  document (Some [firewall]) (Some [forti4; palo; forti4bis; paloBis]).

(** A later document: no addon, the single product [palo]. *)
Definition laterCatalog : ProductData :=
  document (Some []) (Some [palo]).

End Sample.

(* ================================================================= *)
(** ** Notions used by the further properties *)

(** [s.includes(c)] for one code unit [c]. *)
Fixpoint hasChar (c : ascii) (s : string) : bool :=
  match s with
  | EmptyString => false
  | String c' rest => if Ascii.eqb c' c then true else hasChar c rest
  end.

(** Criteria made of simple tokens: no key holds a separator of the
    canonical key, no value holds the pair separator. *)
Definition simpleTokens (criteria : MatchCriteria) : Prop :=
  forall key value,
    In (key, value) criteria ->
    hasChar ":" key = false
    /\ hasChar "|" key = false
    /\ hasChar "|" value = false.

(** The states of the enriched service: the constructor followed by any
    number of [initialize] calls. *)
Inductive reachable : Enriched.ProductLookupService -> Prop :=
| reachable_new : reachable Enriched.new
| reachable_initialize s doc :
    reachable s -> reachable (Enriched.initialize s doc).

(** The first and the last product of a sequence carrying an id. *)
Definition firstWithId (productId : string) (l : list Product)
  : option Product :=
  find (fun p => String.eqb (product_id p) productId) l.

Definition lastWithId (productId : string) (l : list Product)
  : option Product :=
  find (fun p => String.eqb (product_id p) productId) (rev l).

Module MoreSamples.
Local Open Scope string_scope.

(** A document without a products sequence. *)
Definition withoutProducts : ProductData :=
  Sample.document (Some [Sample.firewall]) None.

(** A product whose addon type is registered nowhere. *)
Definition orphan : Product :=
  mkProduct "7700000000001" "load-balancer" [("vendor", "f5")].

Definition catalogWithOrphan : ProductData :=
  Sample.document (Some [Sample.firewall]) (Some [Sample.forti4; orphan]).

End MoreSamples.

(* ================================================================= *)
(** ** Facts about dictionaries *)

(** Closes [NoDup] and [Js.wf] goals on explicit lists of strings. *)
Ltac distinct_strings :=
  unfold Js.wf, Js.keys; simpl;
  repeat constructor; simpl; intuition discriminate.

Section DictFacts.
Context {V : Type}.
Implicit Types (d : Js.Dict V) (k : string) (v : V).

Lemma get_set_same d k v : Js.get (Js.set d k v) k = Some v.
Proof.
  induction d as [|[k' v'] rest IH]; simpl.
  - now rewrite String.eqb_refl.
  - destruct (String.eqb k' k) eqn:E; simpl; rewrite E; auto.
Qed.

Lemma get_set_other d k k' v :
  k <> k' -> Js.get (Js.set d k v) k' = Js.get d k'.
Proof.
  intros Hne. induction d as [|[k0 v0] rest IH]; simpl.
  - apply String.eqb_neq in Hne. now rewrite Hne.
  - destruct (String.eqb k0 k) eqn:E; simpl.
    + apply String.eqb_eq in E; subst k0.
      apply String.eqb_neq in Hne. now rewrite Hne.
    + now rewrite IH.
Qed.

Lemma keys_set_In d k v k' :
  In k' (Js.keys (Js.set d k v)) <-> k' = k \/ In k' (Js.keys d).
Proof.
  induction d as [|[k0 v0] rest IH]; simpl.
  - intuition.
  - destruct (String.eqb k0 k) eqn:E; simpl.
    + apply String.eqb_eq in E; subst. intuition.
    + rewrite IH. intuition.
Qed.

Lemma wf_set d k v : Js.wf d -> Js.wf (Js.set d k v).
Proof.
  unfold Js.wf. induction d as [|[k0 v0] rest IH]; simpl; intros Hnd.
  - constructor; [simpl; tauto | constructor].
  - inversion Hnd as [|? ? Hnotin Hrest]; subst.
    destruct (String.eqb k0 k) eqn:E; simpl.
    + now constructor.
    + constructor; [|now apply IH].
      intros Hin. apply keys_set_In in Hin. destruct Hin as [->|Hin].
      * now rewrite String.eqb_refl in E.
      * contradiction.
Qed.

Lemma get_Some_In d k v : Js.get d k = Some v -> In (k, v) d.
Proof.
  induction d as [|[k0 v0] rest IH]; simpl; [discriminate|].
  destruct (String.eqb k0 k) eqn:E.
  - apply String.eqb_eq in E. intros [= ->]. left. now subst.
  - intros H. right. now apply IH.
Qed.

Lemma get_None_iff d k : Js.get d k = None <-> ~ In k (Js.keys d).
Proof.
  induction d as [|[k0 v0] rest IH]; simpl; [tauto|].
  destruct (String.eqb k0 k) eqn:E.
  - apply String.eqb_eq in E. split; [discriminate | intros H; exfalso; auto].
  - apply String.eqb_neq in E. rewrite IH. tauto.
Qed.

Lemma In_get d k v : Js.wf d -> In (k, v) d -> Js.get d k = Some v.
Proof.
  unfold Js.wf. induction d as [|[k0 v0] rest IH]; simpl; [tauto|].
  intros Hnd Hin. inversion Hnd as [|? ? Hnotin Hrest]; subst.
  destruct Hin as [[= -> ->]|Hin].
  - now rewrite String.eqb_refl.
  - destruct (String.eqb k0 k) eqn:E; [|now apply IH].
    apply String.eqb_eq in E; subst k0. exfalso. apply Hnotin.
    change k with (fst (k, v)). now apply in_map.
Qed.

(** A dictionary filled by a loop of [set] calls: the last write to a key
    wins, keys never written keep their earlier value. *)
Lemma get_fold_set {X : Type} (kf : X -> string) (vf : X -> V)
      (xs : list X) d k :
  Js.get (fold_left (fun m x => Js.set m (kf x) (vf x)) xs d) k =
  match find (fun x => String.eqb (kf x) k) (rev xs) with
  | Some x => Some (vf x)
  | None => Js.get d k
  end.
Proof.
  induction xs as [|x xs IH] using rev_ind; simpl; [reflexivity|].
  rewrite fold_left_app, rev_app_distr. simpl.
  destruct (String.eqb (kf x) k) eqn:E.
  - apply String.eqb_eq in E; subst k. apply get_set_same.
  - apply String.eqb_neq in E. rewrite get_set_other by assumption. apply IH.
Qed.

Lemma wf_fold_set {X : Type} (kf : X -> string) (vf : X -> V)
      (xs : list X) d :
  Js.wf d -> Js.wf (fold_left (fun m x => Js.set m (kf x) (vf x)) xs d).
Proof.
  revert d. induction xs as [|x xs IH]; simpl; intros d Hd; [assumption|].
  apply IH. now apply wf_set.
Qed.

End DictFacts.

(* ================================================================= *)
(** ** Facts about the string order and [sort] *)

Lemma compare_not_Gt_trans s1 s2 s3 :
  String.compare s1 s2 <> Gt ->
  String.compare s2 s3 <> Gt ->
  String.compare s1 s3 <> Gt.
Proof.
  revert s2 s3.
  induction s1 as [|a s1 IH]; intros [|b s2] [|c s3]; simpl;
    try congruence.
  unfold Ascii.compare.
  destruct (N.compare_spec (Ascii.N_of_ascii a) (Ascii.N_of_ascii b));
    destruct (N.compare_spec (Ascii.N_of_ascii b) (Ascii.N_of_ascii c));
    destruct (N.compare_spec (Ascii.N_of_ascii a) (Ascii.N_of_ascii c));
    try congruence; try lia.
  apply IH.
Qed.

Lemma leb_trans s1 s2 s3 :
  String.leb s1 s2 = true -> String.leb s2 s3 = true -> String.leb s1 s3 = true.
Proof.
  unfold String.leb. intros H12 H23.
  pose proof (compare_not_Gt_trans s1 s2 s3) as H.
  destruct (String.compare s1 s2); try discriminate;
    destruct (String.compare s2 s3); try discriminate;
    destruct (String.compare s1 s3); try reflexivity;
    exfalso; apply H; congruence.
Qed.

Lemma leb_false_flip s1 s2 : String.leb s1 s2 = false -> String.leb s2 s1 = true.
Proof.
  intros H. destruct (String.leb_total s1 s2) as [H'|H']; congruence.
Qed.

Lemma sortInsert_comm a b l :
  Js.sortInsert a (Js.sortInsert b l) = Js.sortInsert b (Js.sortInsert a l).
Proof.
  unfold Js.sortCompare.
  induction l as [|c l IH]; simpl; unfold Js.sortCompare.
  - destruct (String.leb a b) eqn:Eab, (String.leb b a) eqn:Eba; try reflexivity.
    + now rewrite (String.leb_antisym a b Eab Eba).
    + apply leb_false_flip in Eab. congruence.
  - destruct (String.leb b c) eqn:Ebc, (String.leb a c) eqn:Eac; simpl;
      unfold Js.sortCompare; rewrite ?Ebc, ?Eac.
    + destruct (String.leb a b) eqn:Eab, (String.leb b a) eqn:Eba;
        try reflexivity.
      * now rewrite (String.leb_antisym a b Eab Eba).
      * apply leb_false_flip in Eab. congruence.
    + destruct (String.leb a b) eqn:Eab; [|reflexivity].
      rewrite (leb_trans a b c Eab Ebc) in Eac. discriminate.
    + destruct (String.leb b a) eqn:Eba; [|reflexivity].
      rewrite (leb_trans b a c Eba Eac) in Ebc. discriminate.
    + now rewrite IH.
Qed.

Lemma sort_Permutation_eq l l' : Permutation l l' -> Js.sort l = Js.sort l'.
Proof.
  induction 1 as [|x l l' _ IH|x y l|l l' l'' _ IH1 _ IH2]; simpl.
  - reflexivity.
  - now rewrite IH.
  - apply sortInsert_comm.
  - congruence.
Qed.

Lemma sortInsert_perm x l : Permutation (Js.sortInsert x l) (x :: l).
Proof.
  induction l as [|y l IH]; simpl; [reflexivity|].
  destruct (Js.sortCompare x y); [reflexivity|].
  rewrite IH. apply perm_swap.
Qed.

Lemma sort_perm l : Permutation (Js.sort l) l.
Proof.
  induction l as [|x l IH]; simpl; [reflexivity|].
  rewrite sortInsert_perm. now constructor.
Qed.

Lemma sortInsert_sorted x l :
  StronglySorted keyLe l -> StronglySorted keyLe (Js.sortInsert x l).
Proof.
  induction 1 as [|y l Hs IH Hall]; simpl.
  - repeat constructor.
  - destruct (Js.sortCompare x y) eqn:E.
    + constructor; [now constructor|].
      constructor; [exact E|].
      apply Forall_forall. intros z Hz.
      rewrite Forall_forall in Hall. specialize (Hall z Hz).
      unfold keyLe, Js.sortCompare in *. eapply leb_trans; eassumption.
    + constructor; [assumption|].
      apply Forall_forall. intros z Hz.
      apply (Permutation_in _ (sortInsert_perm x l)) in Hz.
      destruct Hz as [<-|Hz].
      * unfold keyLe, Js.sortCompare in *. now apply leb_false_flip.
      * rewrite Forall_forall in Hall. now apply Hall.
Qed.

Lemma sort_sorted l : StronglySorted keyLe (Js.sort l).
Proof.
  induction l as [|x l IH]; simpl; [constructor|].
  now apply sortInsert_sorted.
Qed.

(** Two well-formed objects with the same pairs answer every property
    read alike, whatever their insertion order. *)
Lemma get_Permutation (c1 c2 : MatchCriteria) k :
  Js.wf c1 -> Permutation c1 c2 -> Js.get c1 k = Js.get c2 k.
Proof.
  intros Hwf Hperm.
  assert (Hwf2 : Js.wf c2).
  { unfold Js.wf, Js.keys in *.
    eapply Permutation_NoDup; [|exact Hwf]. now apply Permutation_map. }
  destruct (Js.get c1 k) as [v|] eqn:E.
  - symmetry. apply In_get; [assumption|].
    apply (Permutation_in _ Hperm). now apply get_Some_In.
  - symmetry. apply get_None_iff. apply get_None_iff in E.
    intros Hin. apply E. unfold Js.keys in *.
    eapply Permutation_in; [|exact Hin].
    apply Permutation_map. now symmetry.
Qed.

Lemma sortedPairs_perm criteria :
  Js.wf criteria -> Permutation (sortedPairs criteria) criteria.
Proof.
  intros Hwf. unfold sortedPairs.
  transitivity (map (fun key => (key, Js.toStr (Js.get criteria key)))
                    (Js.keys criteria)).
  - apply Permutation_map, sort_perm.
  - assert (E : map (fun key => (key, Js.toStr (Js.get criteria key)))
                    (Js.keys criteria) = criteria).
    { unfold Js.keys. rewrite map_map.
      etransitivity; [|apply map_id]. apply map_ext_in.
      intros [k v] Hin. simpl. now rewrite (In_get _ _ _ Hwf Hin). }
    rewrite E. reflexivity.
Qed.

Lemma sortedPairs_sorted criteria :
  StronglySorted pairKeyLe (sortedPairs criteria).
Proof.
  unfold sortedPairs.
  pose proof (sort_sorted (Js.keys criteria)) as Hs.
  induction Hs as [|k l Hs IH Hall]; simpl; constructor; [assumption|].
  apply Forall_forall. intros p Hp. apply in_map_iff in Hp.
  destruct Hp as [k' [<- Hk']]. rewrite Forall_forall in Hall.
  unfold pairKeyLe; simpl. now apply Hall.
Qed.

Lemma generateCriteriaKey_sortedPairs criteria :
  generateCriteriaKey criteria =
  Js.join "|"%string (map renderPair (sortedPairs criteria)).
Proof.
  unfold generateCriteriaKey, sortedPairs. now rewrite map_map.
Qed.

(* ================================================================= *)
(** ** Key codec: canonical form *)

(** C2. Two criteria mappings holding the same key-value pairs, in whatever
    insertion order, get the same canonical key.  The key is the
    ["key:value"] texts of the pairs, listed by sorted key and joined with
    ["|"]; the mapping without pairs gets the empty string. *)
Theorem generateCriteriaKey_order_independent :
  forall C1 C2 : MatchCriteria,
    Js.wf C1 ->
    Permutation C1 C2 ->
    generateCriteriaKey C1 = generateCriteriaKey C2
    /\ (exists pairs,
           Permutation pairs C1
           /\ StronglySorted pairKeyLe pairs
           /\ generateCriteriaKey C1 = Js.join "|"%string (map renderPair pairs))
    /\ generateCriteriaKey [] = ""%string.
Proof.
  intros C1 C2 Hwf Hperm. split; [|split].
  - unfold generateCriteriaKey.
    rewrite (sort_Permutation_eq (Js.keys C1) (Js.keys C2))
      by (unfold Js.keys; now apply Permutation_map).
    f_equal. apply map_ext. intros k.
    now rewrite (get_Permutation C1 C2 k Hwf Hperm).
  - exists (sortedPairs C1). split; [|split].
    + now apply sortedPairs_perm.
    + apply sortedPairs_sorted.
    + apply generateCriteriaKey_sortedPairs.
  - reflexivity.
Qed.

Lemma generateCriteriaKey_order_independent_witness :
  let C1 : MatchCriteria :=
    [("vendor", "fortigate"); ("cpu", "4-cpu"); ("license", "utp")]%string in
  let C2 : MatchCriteria :=
    [("cpu", "4-cpu"); ("vendor", "fortigate"); ("license", "utp")]%string in
  Js.wf C1 /\ Permutation C1 C2 /\
  generateCriteriaKey C1 = "cpu:4-cpu|license:utp|vendor:fortigate"%string /\
  generateCriteriaKey C1 = generateCriteriaKey C2.
Proof.
  intros C1 C2.
  assert (Hwf : Js.wf C1).
  { unfold C1. distinct_strings. }
  assert (Hperm : Permutation C1 C2) by apply perm_swap.
  split; [exact Hwf|]. split; [exact Hperm|]. split; [reflexivity|].
  exact (proj1 (generateCriteriaKey_order_independent C1 C2 Hwf Hperm)).
Defined.

(** C9. The canonical key is not injective: a value that contains the
    separators can imitate a second pair, so two different mappings share
    one key. *)
Theorem generateCriteriaKey_not_injective :
  exists c1 c2 : MatchCriteria,
    Js.wf c1 /\ Js.wf c2
    /\ ~ Permutation c1 c2
    /\ (exists k v, In (k, v) c1 /\ String.index 0 "|" v <> None)
    /\ generateCriteriaKey c1 = generateCriteriaKey c2.
Proof.
  exists [("a", "1|b:2")]%string, [("a", "1"); ("b", "2")]%string.
  split; [|split; [|split; [|split]]].
  - distinct_strings.
  - distinct_strings.
  - intros Hperm. apply Permutation_length in Hperm. discriminate.
  - exists "a"%string, "1|b:2"%string. split; [now left|]. discriminate.
  - reflexivity.
Qed.

(* ================================================================= *)
(** ** Facts about sequences scanned with [find] *)

Section FindFacts.
Context {X : Type}.
Implicit Types (f : X -> bool) (l : list X).

Lemma find_app f l1 l2 :
  find f (l1 ++ l2) =
  match find f l1 with
  | Some x => Some x
  | None => find f l2
  end.
Proof.
  induction l1 as [|x l1 IH]; simpl; [reflexivity|].
  now destruct (f x).
Qed.

Lemma find_all_false f l :
  (forall x, In x l -> f x = false) -> find f l = None.
Proof.
  induction l as [|x l IH]; simpl; intros H; [reflexivity|].
  rewrite (H x) by now left. apply IH. intros y Hy. apply H. now right.
Qed.

(** Scanning from the end: the last element carrying a key is the one
    found first in the reversed sequence. *)
Lemma find_rev_last (kf : X -> string) before P after :
  (forall Q, In Q after -> kf Q <> kf P) ->
  find (fun x => String.eqb (kf x) (kf P)) (rev (before ++ P :: after))
  = Some P.
Proof.
  intros Hafter.
  rewrite rev_app_distr. simpl. rewrite <- app_assoc. rewrite find_app.
  rewrite find_all_false.
  - simpl. now rewrite String.eqb_refl.
  - intros Q HQ. apply in_rev in HQ. apply String.eqb_neq. now apply Hafter.
Qed.

Lemma find_rev_none (kf : X -> string) l k :
  (forall Q, In Q l -> kf Q <> k) ->
  find (fun x => String.eqb (kf x) k) (rev l) = None.
Proof.
  intros H. apply find_all_false. intros Q HQ. apply in_rev in HQ.
  apply String.eqb_neq. now apply H.
Qed.

Lemma NoDup_map_after (kf : X -> string) before P after :
  NoDup (map kf (before ++ P :: after)) ->
  forall Q, In Q after -> kf Q <> kf P.
Proof.
  rewrite map_app. simpl. intros Hnd Q HQ Heq.
  apply NoDup_remove_2 in Hnd. apply Hnd.
  apply in_or_app. right. rewrite <- Heq. now apply in_map.
Qed.

End FindFacts.

(* ================================================================= *)
(** ** Plain variant: the two maps after construction *)

Lemma Plain_fold_productIdToCriteria ps s :
  Plain.productIdToCriteria (fold_left Plain.register ps s) =
  fold_left idEntry ps (Plain.productIdToCriteria s).
Proof.
  revert s. induction ps as [|p ps IH]; intros s; simpl; [reflexivity|].
  now rewrite IH.
Qed.

Lemma Plain_fold_criteriaToProductId ps s :
  Plain.criteriaToProductId (fold_left Plain.register ps s) =
  fold_left keyEntry ps (Plain.criteriaToProductId s).
Proof.
  revert s. induction ps as [|p ps IH]; intros s; simpl; [reflexivity|].
  now rewrite IH.
Qed.

Lemma Plain_new_productIdToCriteria doc :
  Plain.productIdToCriteria (Plain.new doc) =
  fold_left idEntry (productList doc) [].
Proof.
  unfold Plain.new, Plain.initialize, productList; simpl.
  destruct (products (attributes doc)) as [ps|]; simpl; [|reflexivity].
  apply Plain_fold_productIdToCriteria.
Qed.

Lemma Plain_new_criteriaToProductId doc :
  Plain.criteriaToProductId (Plain.new doc) =
  fold_left keyEntry (productList doc) [].
Proof.
  unfold Plain.new, Plain.initialize, productList; simpl.
  destruct (products (attributes doc)) as [ps|]; simpl; [|reflexivity].
  apply Plain_fold_criteriaToProductId.
Qed.

(** Exact lookup by criteria answers with the last listed product whose
    canonical key is the key of the query. *)
Lemma Plain_getProductIdByCriteria_last doc criteria :
  Plain.getProductIdByCriteria (Plain.new doc) criteria =
  option_map product_id
    (find (fun p => String.eqb (canonicalKeyOf p) (generateCriteriaKey criteria))
          (rev (productList doc))).
Proof.
  unfold Plain.getProductIdByCriteria.
  rewrite Plain_new_criteriaToProductId.
  unfold keyEntry. rewrite (get_fold_set canonicalKeyOf product_id).
  now destruct (find _ _).
Qed.

(** Lookup by id answers with the criteria of the last listed product
    carrying that id. *)
Lemma Plain_getCriteriaByProductId_last doc productId :
  Plain.getCriteriaByProductId (Plain.new doc) productId =
  option_map product_matchCriteria
    (find (fun p => String.eqb (product_id p) productId)
          (rev (productList doc))).
Proof.
  unfold Plain.getCriteriaByProductId.
  rewrite Plain_new_productIdToCriteria.
  unfold idEntry. rewrite (get_fold_set product_id product_matchCriteria).
  now destruct (find _ _).
Qed.

Lemma Plain_new_wf doc :
  Js.wf (Plain.criteriaToProductId (Plain.new doc))
  /\ Js.wf (Plain.productIdToCriteria (Plain.new doc)).
Proof.
  rewrite Plain_new_criteriaToProductId, Plain_new_productIdToCriteria.
  split.
  - apply (wf_fold_set canonicalKeyOf product_id). constructor.
  - apply (wf_fold_set product_id product_matchCriteria). constructor.
Qed.

(* ================================================================= *)
(** ** Plain variant: exact lookups *)

(** C1. Round trip from criteria to id: in a catalog whose products all have
    different canonical keys, looking up the criteria of a product of the
    document answers with the id of that product. *)
Theorem getProductIdByCriteria_round_trip :
  forall (doc : ProductData) (P : Product),
    NoDup (map canonicalKeyOf (productList doc)) ->
    In P (productList doc) ->
    Plain.getProductIdByCriteria (Plain.new doc) (product_matchCriteria P)
    = Some (product_id P).
Proof.
  intros doc P Hnd Hin.
  rewrite Plain_getProductIdByCriteria_last.
  destruct (in_split _ _ Hin) as [before [after Hsplit]].
  rewrite Hsplit in *.
  fold (canonicalKeyOf P).
  rewrite (find_rev_last canonicalKeyOf before P after); [reflexivity|].
  now apply (NoDup_map_after canonicalKeyOf before P after).
Qed.

Lemma getProductIdByCriteria_round_trip_witness :
  NoDup (map canonicalKeyOf (productList Sample.catalog))
  /\ In Sample.forti2 (productList Sample.catalog)
  /\ Plain.getProductIdByCriteria (Plain.new Sample.catalog)
       [("vendor", "fortigate"); ("cpu", "2-cpu")]%string
     = Some "8796158984193"%string.
Proof.
  assert (Hnd : NoDup (map canonicalKeyOf (productList Sample.catalog))).
  { distinct_strings. }
  assert (Hin : In Sample.forti2 (productList Sample.catalog)).
  { simpl. right. now left. }
  split; [exact Hnd|]. split; [exact Hin|].
  exact (getProductIdByCriteria_round_trip Sample.catalog Sample.forti2 Hnd Hin).
Defined.

(** C7. Duplicates overwrite silently and the later product wins: a lookup
    by criteria answers with the id of the last listed product having that
    canonical key, a lookup by id with the criteria of the last listed
    product having that id.  Construction always yields a service, each
    map holding one entry per key. *)
Theorem duplicate_last_write_wins :
  forall (doc : ProductData) (before after : list Product) (P : Product),
    productList doc = before ++ P :: after ->
    ((forall Q, In Q after -> canonicalKeyOf Q <> canonicalKeyOf P) ->
     Plain.getProductIdByCriteria (Plain.new doc) (product_matchCriteria P)
     = Some (product_id P))
    /\ ((forall Q, In Q after -> product_id Q <> product_id P) ->
        Plain.getCriteriaByProductId (Plain.new doc) (product_id P)
        = Some (product_matchCriteria P))
    /\ Js.wf (Plain.criteriaToProductId (Plain.new doc))
    /\ Js.wf (Plain.productIdToCriteria (Plain.new doc)).
Proof.
  intros doc before after P Hsplit. split; [|split].
  - intros Hlast. rewrite Plain_getProductIdByCriteria_last, Hsplit.
    fold (canonicalKeyOf P).
    now rewrite (find_rev_last canonicalKeyOf before P after Hlast).
  - intros Hlast. rewrite Plain_getCriteriaByProductId_last, Hsplit.
    now rewrite (find_rev_last product_id before P after Hlast).
  - apply Plain_new_wf.
Qed.

Lemma duplicate_last_write_wins_witness :
  canonicalKeyOf Sample.forti4 = canonicalKeyOf Sample.forti4bis
  /\ product_id Sample.palo = product_id Sample.paloBis
  /\ Plain.getProductIdByCriteria (Plain.new Sample.catalogWithDuplicates)
       (product_matchCriteria Sample.forti4)
     = Some (product_id Sample.forti4bis)
  /\ Plain.getCriteriaByProductId (Plain.new Sample.catalogWithDuplicates)
       (product_id Sample.palo)
     = Some (product_matchCriteria Sample.paloBis).
Proof.
  split; [reflexivity|]. split; [reflexivity|]. split.
  - assert (Hsplit : productList Sample.catalogWithDuplicates =
                     [Sample.forti4; Sample.palo] ++ Sample.forti4bis
                       :: [Sample.paloBis]) by reflexivity.
    assert (Hlast : forall Q, In Q [Sample.paloBis] ->
                              canonicalKeyOf Q <> canonicalKeyOf Sample.forti4bis).
    { intros Q [<-|[]]. discriminate. }
    pose proof (proj1 (duplicate_last_write_wins
                         Sample.catalogWithDuplicates _ _ _ Hsplit) Hlast) as H.
    rewrite <- H. reflexivity.
  - assert (Hsplit : productList Sample.catalogWithDuplicates =
                     [Sample.forti4; Sample.palo; Sample.forti4bis]
                       ++ Sample.paloBis :: []) by reflexivity.
    assert (Hlast : forall Q, In Q [] -> product_id Q <> product_id Sample.paloBis).
    { intros Q []. }
    exact (proj1 (proj2 (duplicate_last_write_wins
                           Sample.catalogWithDuplicates _ _ _ Hsplit)) Hlast).
Defined.

(** C8. An unknown product id and an unmatched criteria mapping both get the
    absent result: the lookups are total and answer [undefined] when no
    product of the document carries the id, respectively the canonical key
    of the query. *)
Theorem unknown_queries_return_absent :
  forall (doc : ProductData) (productId : string) (criteria : MatchCriteria),
    ((forall P, In P (productList doc) -> product_id P <> productId) ->
     Plain.getCriteriaByProductId (Plain.new doc) productId = None)
    /\ ((forall P, In P (productList doc) ->
                   canonicalKeyOf P <> generateCriteriaKey criteria) ->
        Plain.getProductIdByCriteria (Plain.new doc) criteria = None).
Proof.
  intros doc productId criteria. split; intros Hunknown.
  - rewrite Plain_getCriteriaByProductId_last.
    now rewrite (find_rev_none product_id _ _ Hunknown).
  - rewrite Plain_getProductIdByCriteria_last.
    now rewrite (find_rev_none canonicalKeyOf _ _ Hunknown).
Qed.

Lemma unknown_queries_return_absent_witness :
  Plain.getCriteriaByProductId (Plain.new Sample.catalog) "no-such-id"%string
  = None
  /\ Plain.getProductIdByCriteria (Plain.new Sample.catalog)
       [("vendor", "fortigate"); ("cpu", "8-cpu")]%string
     = None.
Proof.
  split.
  - apply (proj1 (unknown_queries_return_absent
                    Sample.catalog "no-such-id"%string [])).
    simpl. intros P [<-|[<-|[<-|[]]]]; discriminate.
  - apply (proj2 (unknown_queries_return_absent
                    Sample.catalog ""%string
                    [("vendor", "fortigate"); ("cpu", "8-cpu")]%string)).
    simpl. intros P [<-|[<-|[<-|[]]]]; discriminate.
Defined.

(* ================================================================= *)
(** ** Plain variant: partial search *)

Lemma matchesLoop_spec criteria todo :
  Plain.matchesLoop criteria todo = true <->
  (forall key value, In (key, value) todo -> Js.get criteria key = Some value).
Proof.
  induction todo as [|[k v] rest IH]; simpl.
  - split; [intros _ key value []|reflexivity].
  - destruct (Js.get criteria k) as [v'|] eqn:Eget.
    + destruct (String.eqb v' v) eqn:Ev.
      * apply String.eqb_eq in Ev; subst v'. rewrite IH. split.
        -- intros H key value [[= <- <-]|Hin]; [assumption|now apply H].
        -- intros H key value Hin. apply H. now right.
      * apply String.eqb_neq in Ev. split; [discriminate|].
        intros H. specialize (H k v (or_introl eq_refl)). congruence.
    + split; [discriminate|].
      intros H. specialize (H k v (or_introl eq_refl)). congruence.
Qed.

Lemma search_loop partialCriteria (todo acc : list (string * MatchCriteria)) :
  fold_left
    (fun results '(id, criteria) =>
       if Plain.matchesLoop criteria (Js.entries partialCriteria)
       then results ++ [(id, criteria)]
       else results) todo acc
  = acc ++ filter (entryMatches partialCriteria) todo.
Proof.
  revert acc. induction todo as [|[id c] rest IH]; intros acc; simpl.
  - now rewrite app_nil_r.
  - rewrite IH. unfold entryMatches at 2; simpl.
    destruct (Plain.matchesLoop c (Js.entries partialCriteria));
      [now rewrite <- app_assoc | reflexivity].
Qed.

Lemma getAllProducts_entries s :
  Plain.getAllProducts s = Js.entries (Plain.productIdToCriteria s).
Proof.
  unfold Plain.getAllProducts.
  generalize (Js.entries (Plain.productIdToCriteria s)). intros l.
  assert (H : forall acc,
             fold_left (fun products '(id, criteria) =>
                          products ++ [(id, criteria)]) l acc = acc ++ l).
  { induction l as [|[id c] rest IH]; intros acc; simpl.
    - now rewrite app_nil_r.
    - rewrite IH. now rewrite <- app_assoc. }
  apply (H []).
Qed.

Lemma set_fresh {V : Type} (d : Js.Dict V) k v :
  ~ In k (Js.keys d) -> Js.set d k v = d ++ [(k, v)].
Proof.
  induction d as [|[k0 v0] rest IH]; simpl; intros Hfresh; [reflexivity|].
  destruct (String.eqb k0 k) eqn:E.
  - apply String.eqb_eq in E. exfalso. apply Hfresh. now left.
  - rewrite IH; [reflexivity|]. intros Hin. apply Hfresh. now right.
Qed.

Lemma wf_filter {V : Type} (f : string * V -> bool) (d : Js.Dict V) :
  Js.wf d -> NoDup (map fst (filter f d)).
Proof.
  unfold Js.wf, Js.keys.
  induction d as [|e d IH]; simpl; intros Hnd; [constructor|].
  inversion Hnd as [|? ? Hnotin Hrest]; subst.
  destruct (f e); simpl; [|now apply IH].
  constructor; [|now apply IH].
  intros Hin. apply Hnotin. apply in_map_iff in Hin.
  destruct Hin as [e' [Hfst He']]. apply filter_In in He'.
  rewrite <- Hfst. apply in_map. tauto.
Qed.

(** With pairwise different ids every [set] of the load appends: the map
    lists the products in document order. *)
Lemma fold_idEntry_distinct ps d :
  NoDup (Js.keys d ++ map product_id ps) ->
  fold_left idEntry ps d = d ++ map entryOf ps.
Proof.
  revert d. induction ps as [|p ps IH]; intros d Hnd; simpl.
  - now rewrite app_nil_r.
  - assert (Hfresh : ~ In (product_id p) (Js.keys d)).
    { intros Hin. apply NoDup_remove_2 in Hnd. apply Hnd.
      apply in_or_app. now left. }
    unfold idEntry at 2. rewrite (set_fresh d _ _ Hfresh).
    rewrite IH.
    + now rewrite <- app_assoc.
    + unfold Js.keys in *. rewrite map_app. simpl. rewrite <- app_assoc.
      exact Hnd.
Qed.

(** C3. The partial search returns the stored entries whose criteria agree
    with every pair of the partial mapping: an entry lacking one of the
    keys is left out, further keys of the entry are ignored.  No id is
    returned twice.  With pairwise different product ids the result is the
    matching products of the document, in document order; with the empty
    partial mapping it is the whole product list ([getAllProducts]), every
    product id of the document occurring in it. *)
Theorem searchByPartialCriteria_spec :
  forall (doc : ProductData) (partialCriteria : MatchCriteria),
    let s := Plain.new doc in
    let results := Plain.searchByPartialCriteria s partialCriteria in
    (forall id criteria,
        In (id, criteria) results <->
        Plain.getCriteriaByProductId s id = Some criteria
        /\ (forall key value,
               In (key, value) partialCriteria ->
               Js.get criteria key = Some value))
    /\ NoDup (map fst results)
    /\ (NoDup (map product_id (productList doc)) ->
        results =
        map entryOf
            (filter (fun p => Plain.matchesLoop (product_matchCriteria p)
                                                (Js.entries partialCriteria))
                    (productList doc)))
    /\ Plain.searchByPartialCriteria s [] = Plain.getAllProducts s
    /\ (forall P, In P (productList doc) ->
                  In (product_id P)
                     (map fst (Plain.searchByPartialCriteria s []))).
Proof.
  intros doc partialCriteria s results.
  assert (Hres : results =
                 filter (entryMatches partialCriteria)
                        (Plain.productIdToCriteria s)).
  { unfold results, Plain.searchByPartialCriteria. now rewrite search_loop. }
  assert (Hall : Plain.searchByPartialCriteria s [] =
                 Plain.productIdToCriteria s).
  { unfold Plain.searchByPartialCriteria. rewrite search_loop. simpl.
    apply forallb_filter_id. apply forallb_forall. reflexivity. }
  destruct (Plain_new_wf doc) as [_ Hwf]. fold s in Hwf.
  split; [|split; [|split; [|split]]].
  - intros id criteria. rewrite Hres, filter_In.
    unfold entryMatches, Plain.getCriteriaByProductId; simpl.
    rewrite matchesLoop_spec. unfold Js.entries. split.
    + intros [Hin Hagree]. split; [|assumption]. now apply In_get.
    + intros [Hget Hagree]. split; [|assumption]. now apply get_Some_In.
  - rewrite Hres. apply wf_filter. exact Hwf.
  - intros Hids. rewrite Hres. unfold s.
    rewrite Plain_new_productIdToCriteria.
    rewrite (fold_idEntry_distinct (productList doc) []) by exact Hids.
    simpl. generalize (productList doc). intros ps.
    induction ps as [|p ps IH]; simpl; [reflexivity|].
    unfold entryMatches at 1; simpl.
    destruct (Plain.matchesLoop (product_matchCriteria p)
                                (Js.entries partialCriteria));
      simpl; now rewrite IH.
  - rewrite Hall. symmetry. apply getAllProducts_entries.
  - intros P HP. rewrite Hall.
    destruct (Js.get (Plain.productIdToCriteria s) (product_id P)) as [c|] eqn:E.
    + apply get_Some_In in E. change (product_id P) with (fst (product_id P, c)).
      now apply in_map.
    + exfalso. fold (Plain.getCriteriaByProductId s (product_id P)) in E.
      unfold s in E. rewrite Plain_getCriteriaByProductId_last in E.
      destruct (find (fun p => String.eqb (product_id p) (product_id P))
                     (rev (productList doc))) as [q|] eqn:Ef; [discriminate|].
      pose proof (find_none _ _ Ef P) as Hnone. simpl in Hnone.
      rewrite String.eqb_refl in Hnone.
      assert (true = false) by (apply Hnone; now apply in_rev in HP).
      discriminate.
Qed.

Lemma searchByPartialCriteria_spec_witness :
  NoDup (map product_id (productList Sample.catalog))
  /\ Plain.searchByPartialCriteria (Plain.new Sample.catalog)
       [("vendor", "fortigate")]%string
     = [entryOf Sample.forti4; entryOf Sample.forti2].
Proof.
  assert (Hids : NoDup (map product_id (productList Sample.catalog))).
  { distinct_strings. }
  split; [exact Hids|].
  exact (proj1 (proj2 (proj2 (searchByPartialCriteria_spec
                                Sample.catalog
                                [("vendor", "fortigate")]%string))) Hids).
Defined.

(* ================================================================= *)
(** ** Enriched variant: the tree walk *)

Import Enriched.

Lemma depth_unfold node : depth node = S (depthBelow (node_options node)).
Proof.
  destruct node as [i l la t r opts]; reflexivity.
Qed.

Lemma depthBelow_In opts opt : In opt opts -> depthOpt opt <= depthBelow opts.
Proof.
  induction opts as [|o rest IH]; simpl; [tauto|].
  intros [->|Hin]; [lia|]. specialize (IH Hin). lia.
Qed.

Lemma depthOpt_children opt child :
  opt_children opt = Some child -> depthOpt opt = depth child.
Proof. destruct opt as [v l la ch]; simpl. now intros ->. Qed.

(** A recursive call of the tree walk goes to a strictly shallower node. *)
Lemma depth_child_lt node opt child :
  In opt (node_options node) ->
  opt_children opt = Some child ->
  depth child < depth node.
Proof.
  intros Hin Hch. rewrite (depth_unfold node).
  apply depthBelow_In in Hin. rewrite (depthOpt_children _ _ Hch) in Hin. lia.
Qed.

(** The walk, one call frame unfolded, as the method body reads. *)
Lemma traverseTree_eq node criteria selectedOptions :
  traverseTree node criteria selectedOptions =
  match Js.get criteria (node_id node) with
  | None => selectedOptions
  | Some criteriaValue =>
      if Js.truthy (Some criteriaValue) then
        match findOption node criteriaValue with
        | None => selectedOptions
        | Some option =>
            let selected := Js.set selectedOptions (node_id node) option in
            match opt_children option with
            | None => selected
            | Some children => traverseTree children criteria selected
            end
        end
      else selectedOptions
  end.
Proof. apply traverseTree_equation. Qed.

Lemma findOption_first node criteriaValue before option after :
  node_options node = before ++ option :: after ->
  (forall o, In o before -> opt_value o <> criteriaValue) ->
  opt_value option = criteriaValue ->
  findOption node criteriaValue = Some option.
Proof.
  intros Hsplit Hbefore Hvalue. unfold findOption.
  rewrite Hsplit, find_app, find_all_false.
  - simpl. rewrite Hvalue. now rewrite String.eqb_refl.
  - intros o Ho. apply String.eqb_neq. now apply Hbefore.
Qed.

Lemma findOption_none node criteriaValue :
  (forall o, In o (node_options node) -> opt_value o <> criteriaValue) ->
  findOption node criteriaValue = None.
Proof.
  intros H. apply find_all_false. intros o Ho.
  apply String.eqb_neq. now apply H.
Qed.

Lemma findOption_In node criteriaValue option :
  findOption node criteriaValue = Some option ->
  In option (node_options node) /\ opt_value option = criteriaValue.
Proof.
  intros H. apply find_some in H. destruct H as [Hin Heq].
  split; [assumption|]. now apply String.eqb_eq.
Qed.

Lemma truthy_Some v : Js.truthy (Some v) = true <-> v <> ""%string.
Proof.
  simpl. destruct (String.eqb v "") eqn:E; simpl.
  - apply String.eqb_eq in E. split; [discriminate|congruence].
  - apply String.eqb_neq in E. tauto.
Qed.

Lemma length_set {V : Type} (d : Js.Dict V) k v :
  length (Js.set d k v) <= S (length d).
Proof.
  induction d as [|[k0 v0] rest IH]; simpl; [lia|].
  destruct (String.eqb k0 k); simpl; lia.
Qed.

(** What the walk leaves in the accumulator: one entry per key, and at
    most one new entry per level of the tree. *)
Lemma traverseTree_bounds fuel :
  forall node criteria selectedOptions,
    depth node <= fuel ->
    (Js.wf selectedOptions ->
     Js.wf (traverseTree node criteria selectedOptions))
    /\ length (traverseTree node criteria selectedOptions)
       <= length selectedOptions + depth node.
Proof.
  induction fuel as [|fuel IH]; intros node criteria sel Hfuel.
  - rewrite depth_unfold in Hfuel. lia.
  - rewrite traverseTree_eq.
    destruct (Js.get criteria (node_id node)) as [v|]; [|split; [auto|lia]].
    destruct (Js.truthy (Some v)); [|split; [auto|lia]].
    destruct (findOption node v) as [option|] eqn:Hfind; [|split; [auto|lia]].
    apply findOption_In in Hfind. destruct Hfind as [Hin _].
    pose proof (length_set sel (node_id node) option) as Hlen.
    cbv zeta.
    destruct (opt_children option) as [children|] eqn:Hch.
    + pose proof (depth_child_lt node option children Hin Hch) as Hlt.
      destruct (IH children criteria (Js.set sel (node_id node) option))
        as [Hwf Hbound]; [lia|].
      split; [intros H; apply Hwf; now apply wf_set | lia].
    + rewrite (depth_unfold node).
      split; [intros H; now apply wf_set | lia].
Qed.

(** C4. The tree resolver stops, recording nothing, at a node whose id is
    missing from the criteria or mapped to the empty string.  Otherwise it
    takes the first option, in sequence order, whose value is the criteria
    value, records it under the id of the node and goes on into the children
    of that option when there are children; when no option has the value
    nothing is recorded.  The accumulator keeps one entry per id and grows
    by at most one entry per level of the single path taken. *)
Theorem traverseTree_spec :
  forall (node : TreeNode) (criteria : MatchCriteria)
         (selectedOptions : SelectedOptions),
    (Js.truthy (Js.get criteria (node_id node)) = false ->
     traverseTree node criteria selectedOptions = selectedOptions)
    /\ (forall criteriaValue,
           Js.get criteria (node_id node) = Some criteriaValue ->
           criteriaValue <> ""%string ->
           (forall o, In o (node_options node) ->
                      opt_value o <> criteriaValue) ->
           traverseTree node criteria selectedOptions = selectedOptions)
    /\ (forall criteriaValue before option after,
           Js.get criteria (node_id node) = Some criteriaValue ->
           criteriaValue <> ""%string ->
           node_options node = before ++ option :: after ->
           (forall o, In o before -> opt_value o <> criteriaValue) ->
           opt_value option = criteriaValue ->
           traverseTree node criteria selectedOptions =
           match opt_children option with
           | None => Js.set selectedOptions (node_id node) option
           | Some children =>
               traverseTree children criteria
                            (Js.set selectedOptions (node_id node) option)
           end)
    /\ (Js.wf selectedOptions ->
        Js.wf (traverseTree node criteria selectedOptions))
    /\ length (traverseTree node criteria selectedOptions)
       <= length selectedOptions + depth node.
Proof.
  intros node criteria sel. split; [|split; [|split]].
  - intros Hfalsy. rewrite traverseTree_eq.
    destruct (Js.get criteria (node_id node)) as [v|]; [|reflexivity].
    now rewrite Hfalsy.
  - intros v Hget Hne Hnone. rewrite traverseTree_eq, Hget.
    rewrite (findOption_none node v Hnone).
    now destruct (Js.truthy (Some v)).
  - intros v before option after Hget Hne Hsplit Hbefore Hvalue.
    rewrite traverseTree_eq, Hget.
    rewrite (proj2 (truthy_Some v) Hne).
    now rewrite (findOption_first node v before option after Hsplit Hbefore Hvalue).
  - apply (traverseTree_bounds (depth node)). lia.
Qed.

Lemma traverseTree_spec_witness :
  let criteria : MatchCriteria :=
    [("cpu", "4-cpu"); ("vendor", "fortigate")]%string in
  let fortigate :=
    mkTreeOption "fortigate" "Fortigate" "fortigate-ar" (Some Sample.cpuNode) in
  let fourCpu := mkTreeOption "4-cpu" "4 CPU" "4-ar" None in
  traverseTree Sample.vendorNode criteria []
  = traverseTree Sample.cpuNode criteria [("vendor"%string, fortigate)]
  /\ traverseTree Sample.vendorNode criteria []
     = [("vendor"%string, fortigate); ("cpu"%string, fourCpu)]
  /\ traverseTree Sample.vendorNode [("cpu", "4-cpu")]%string [] = [].
Proof.
  intros criteria fortigate fourCpu. split; [|split].
  - apply (proj1 (proj2 (proj2 (traverseTree_spec Sample.vendorNode criteria [])))
             "fortigate"%string [] fortigate
             [mkTreeOption "palo-alto" "Palo Alto" "palo-ar" None]).
    + reflexivity.
    + discriminate.
    + reflexivity.
    + intros o [].
    + reflexivity.
  - reflexivity.
  - apply (proj1 (traverseTree_spec Sample.vendorNode
                                    [("cpu", "4-cpu")]%string [])).
    reflexivity.
Defined.

(** C10. The walk terminates on every tree and every criteria mapping: a
    recursive call is made on the children of an option of the current node,
    a strictly shallower tree, so a budget of as many call frames as the
    tree is deep always suffices to return the result. *)
Theorem traverseTree_terminates :
  forall (node : TreeNode) (criteria : MatchCriteria)
         (selectedOptions : SelectedOptions) (fuel : nat),
    depth node <= fuel ->
    traverseTreeFuel fuel node criteria selectedOptions
    = Some (traverseTree node criteria selectedOptions)
    /\ (forall criteriaValue option children,
           findOption node criteriaValue = Some option ->
           opt_children option = Some children ->
           depth children < depth node).
Proof.
  intros node criteria sel fuel Hfuel. split.
  - revert node sel Hfuel.
    induction fuel as [|fuel IH]; intros node sel Hfuel.
    + rewrite depth_unfold in Hfuel. lia.
    + rewrite traverseTree_eq. simpl.
      destruct (Js.get criteria (node_id node)) as [v|]; [|reflexivity].
      destruct (negb (String.eqb v "")); [|reflexivity].
      destruct (findOption node v) as [option|] eqn:Hfind; [|reflexivity].
      destruct (opt_children option) as [children|] eqn:Hch; [|reflexivity].
      apply IH. apply findOption_In in Hfind.
      pose proof (depth_child_lt node option children (proj1 Hfind) Hch). lia.
  - intros v option children Hfind Hch.
    apply findOption_In in Hfind.
    exact (depth_child_lt node option children (proj1 Hfind) Hch).
Qed.

Lemma traverseTree_terminates_witness :
  depth Sample.vendorNode <= 2
  /\ traverseTreeFuel 2 Sample.vendorNode
       [("vendor", "fortigate"); ("cpu", "4-cpu")]%string []
     = Some (traverseTree Sample.vendorNode
               [("vendor", "fortigate"); ("cpu", "4-cpu")]%string []).
Proof.
  assert (Hfuel : depth Sample.vendorNode <= 2) by (simpl; lia).
  split; [exact Hfuel|].
  exact (proj1 (traverseTree_terminates
                  Sample.vendorNode
                  [("vendor", "fortigate"); ("cpu", "4-cpu")]%string [] 2 Hfuel)).
Defined.

(** The budget is tight: one frame is not enough for a two-level path. *)
Example traverseTreeFuel_short_budget :
  traverseTreeFuel 1 Sample.vendorNode
    [("vendor", "fortigate"); ("cpu", "4-cpu")]%string [] = None.
Proof. reflexivity. Qed.

(* ================================================================= *)
(** ** Enriched variant: the three maps after [initialize] *)

Lemma fold_registerAddon l s :
  fold_left registerAddon l s =
  mkService (criteriaToProductId s) (productIdToCriteria s)
            (fold_left addonEntry l (addonsMap s)) (data s).
Proof.
  revert s. induction l as [|a l IH]; intros s; simpl.
  - now destruct s.
  - now rewrite IH.
Qed.

Lemma fold_registerProduct l s :
  fold_left registerProduct l s =
  mkService (fold_left keyEntry l (criteriaToProductId s))
            (fold_left idEntry l (productIdToCriteria s))
            (addonsMap s) (data s).
Proof.
  revert s. induction l as [|p l IH]; intros s; simpl.
  - now destruct s.
  - now rewrite IH.
Qed.

Lemma initialize_maps s doc :
  initialize s doc =
  mkService (fold_left keyEntry (productList doc) (criteriaToProductId s))
            (fold_left idEntry (productList doc) (productIdToCriteria s))
            (fold_left addonEntry (addonList doc) (addonsMap s))
            (Some doc).
Proof.
  unfold initialize, productList, addonList.
  destruct (addons (attributes doc)) as [la|],
           (products (attributes doc)) as [lp|];
    rewrite ?fold_registerProduct, ?fold_registerAddon; reflexivity.
Qed.

(** A lookup after [initialize]: the last entry of the new document under
    the key, and without one whatever the map held before. *)
Lemma initialize_getProductIdByCriteria s doc criteria :
  getProductIdByCriteria (initialize s doc) criteria =
  match find (fun p => String.eqb (canonicalKeyOf p) (generateCriteriaKey criteria))
             (rev (productList doc)) with
  | Some p => Some (product_id p)
  | None => getProductIdByCriteria s criteria
  end.
Proof.
  unfold getProductIdByCriteria. rewrite initialize_maps; simpl.
  unfold keyEntry. apply (get_fold_set canonicalKeyOf product_id).
Qed.

Lemma initialize_productIdToCriteria s doc productId :
  Js.get (productIdToCriteria (initialize s doc)) productId =
  match find (fun p => String.eqb (product_id p) productId)
             (rev (productList doc)) with
  | Some p => Some (product_matchCriteria p)
  | None => Js.get (productIdToCriteria s) productId
  end.
Proof.
  rewrite initialize_maps; simpl.
  unfold idEntry. apply (get_fold_set product_id product_matchCriteria).
Qed.

Lemma initialize_addonsMap s doc addonId :
  Js.get (addonsMap (initialize s doc)) addonId =
  match find (fun a => String.eqb (addon_id a) addonId)
             (rev (addonList doc)) with
  | Some a => Some a
  | None => Js.get (addonsMap s) addonId
  end.
Proof.
  rewrite initialize_maps; simpl.
  unfold addonEntry. apply (get_fold_set addon_id (fun a => a)).
Qed.

Lemma find_rev_some_find {X : Type} (f : X -> bool) (l : list X) :
  find f (rev l) <> None -> find f l <> None.
Proof.
  intros Hrev Hnone. apply Hrev. apply find_all_false.
  intros x Hx. apply in_rev in Hx. exact (find_none f l Hnone x Hx).
Qed.

(** On a service initialized once, a stored id is the id of a product of
    the document: the scan of the products sequence neither throws nor
    misses. *)
Lemma initialize_new_findProduct doc productId :
  Js.get (productIdToCriteria (initialize new doc)) productId <> None ->
  exists product,
    findProduct (initialize new doc) productId = Js.Returned (Some product).
Proof.
  rewrite initialize_productIdToCriteria. simpl.
  destruct (find _ (rev (productList doc))) as [p|] eqn:Efind;
    [intros _ | intros H; now elim H].
  assert (Hfwd : find (fun p => String.eqb (product_id p) productId)
                      (productList doc) <> None).
  { apply find_rev_some_find. rewrite Efind. discriminate. }
  unfold findProduct. rewrite initialize_maps; simpl.
  unfold productList in *.
  destruct (products (attributes doc)) as [l|].
  - destruct (find _ l) as [q|]; [now exists q | now elim Hfwd].
  - simpl in Hfwd. now elim Hfwd.
Qed.

(* ================================================================= *)
(** ** Enriched variant: lookup by id *)

(** On a service whose loaded document has a products sequence, the
    enriched lookup by id is decided by three reads: the criteria stored
    under the id, the first product of the sequence carrying the id, and
    the addon registered under the addon type of that product.  It answers
    absent as soon as one of them comes back empty, and otherwise with the
    id, the addon type of the product, the stored criteria, the options
    the walk resolves from an empty accumulator, and the addon. *)
Lemma getCriteriaByProductId_on_document
      (s : ProductLookupService) (doc : ProductData) (ps : list Product)
      (productId : string) :
  data s = Some doc ->
  products (attributes doc) = Some ps ->
  getCriteriaByProductId s productId =
  match Js.get (productIdToCriteria s) productId with
  | None => Js.Returned None
  | Some matchCriteria =>
      match firstWithId productId ps with
      | None => Js.Returned None
      | Some product =>
          match Js.get (addonsMap s) (product_addonType product) with
          | None => Js.Returned None
          | Some addon =>
              Js.Returned
                (Some (mkEnrichedCriteria
                         productId (product_addonType product) matchCriteria
                         (traverseTree (addon_tree addon) matchCriteria [])
                         addon))
          end
      end
  end.
Proof.
  intros Hdata Hps. unfold getCriteriaByProductId, findProduct, firstWithId.
  now rewrite Hdata, Hps.
Qed.

(** C6 fails on the code by a missed case.  The three guards of the
    enriched lookup answer absent when a step comes back empty, but the
    scan [this.data.attributes.products.find] is made without the test for
    a missing products sequence that [initialize] makes.  After loading
    [Sample.catalog] and then a document without products, criteria are
    still stored under the id of a product of the first document, the
    current document has no product with that id, and the lookup throws
    where the claim has it answer absent.  The same document loaded into a
    fresh service is answered with absent. *)
Theorem getCriteriaByProductId_throws_on_stale_id :
  let s := initialize (initialize new Sample.catalog)
                      MoreSamples.withoutProducts in
  let productId := "8800190627841"%string in
  reachable s
  /\ data s = Some MoreSamples.withoutProducts
  /\ Js.get (productIdToCriteria s) productId
     = Some (product_matchCriteria Sample.forti4)
  /\ (forall P, In P (productList MoreSamples.withoutProducts) ->
                product_id P <> productId)
  /\ getCriteriaByProductId s productId = Js.Thrown
  /\ getCriteriaByProductId s productId <> Js.Returned None
  /\ getCriteriaByProductId (initialize new MoreSamples.withoutProducts)
       productId = Js.Returned None.
Proof.
  intros s productId.
  split; [repeat constructor|].
  split; [reflexivity|]. split; [reflexivity|].
  split; [intros P []|].
  split; [reflexivity|]. split; [discriminate|reflexivity].
Qed.

(* ================================================================= *)
(** ** Enriched variant: running [initialize] again *)

(** C5 fails as stated.  Re-initialization does not replace the earlier
    results: after loading
    [Sample.catalog] and then [Sample.laterCatalog], the criteria of a
    product of the first document still resolve to its id, the addon of the
    first document is still registered, and the enriched lookup of a
    product of the second document is answered with that earlier addon,
    whereas a service that only ever saw the second document answers
    absent in all three cases. *)
Lemma reinitialize_keeps_previous_entries :
  let s := initialize (initialize new Sample.catalog) Sample.laterCatalog in
  let fresh := initialize new Sample.laterCatalog in
  ~ (forall criteria,
        getProductIdByCriteria s criteria
        = getProductIdByCriteria fresh criteria)
  /\ ~ (forall addonId,
           Js.get (addonsMap s) addonId = Js.get (addonsMap fresh) addonId)
  /\ ~ (forall productId,
           getCriteriaByProductId s productId
           = getCriteriaByProductId fresh productId)
  /\ getProductIdByCriteria s (product_matchCriteria Sample.forti4)
     = Some (product_id Sample.forti4)
  /\ ~ In Sample.forti4 (productList Sample.laterCatalog)
  /\ Js.get (addonsMap s) "firewall"%string = Some Sample.firewall
  /\ addonList Sample.laterCatalog = [].
Proof.
  intros s fresh.
  split; [|split; [|split; [|split; [|split; [|split]]]]].
  - intros H. specialize (H (product_matchCriteria Sample.forti4)).
    discriminate H.
  - intros H. specialize (H "firewall"%string). discriminate H.
  - intros H. specialize (H (product_id Sample.palo)).
    unfold s, fresh, getCriteriaByProductId in H. simpl in H. discriminate H.
  - reflexivity.
  - simpl. intros [H|[]]. discriminate H.
  - reflexivity.
  - reflexivity.
Qed.

(** C5, as the code has it. [initialize] writes the new document into the
    maps it finds: a key defined by the new document (canonical key, product
    id, addon id) answers from the new document, every other key answers as
    it did before the call, so that earlier entries stay reachable through
    [getProductIdByCriteria] and the addon map.  The enriched lookup by id
    answers absent for an id that no product of the new products sequence
    carries. *)
Theorem initialize_merges_into_previous_maps :
  forall (s : ProductLookupService) (doc : ProductData),
    let s' := initialize s doc in
    let fresh := initialize new doc in
    data s' = Some doc
    /\ (forall criteria,
           getProductIdByCriteria s' criteria =
           match getProductIdByCriteria fresh criteria with
           | Some id => Some id
           | None => getProductIdByCriteria s criteria
           end)
    /\ (forall productId,
           Js.get (productIdToCriteria s') productId =
           match Js.get (productIdToCriteria fresh) productId with
           | Some criteria => Some criteria
           | None => Js.get (productIdToCriteria s) productId
           end)
    /\ (forall addonId,
           Js.get (addonsMap s') addonId =
           match Js.get (addonsMap fresh) addonId with
           | Some addon => Some addon
           | None => Js.get (addonsMap s) addonId
           end)
    /\ (forall productId,
           products (attributes doc) <> None ->
           (forall P, In P (productList doc) -> product_id P <> productId) ->
           getCriteriaByProductId s' productId = Js.Returned None).
Proof.
  intros s doc s' fresh. unfold s', fresh.
  split; [|split; [|split; [|split]]].
  - now rewrite initialize_maps.
  - intros criteria. rewrite !initialize_getProductIdByCriteria.
    now destruct (find _ _).
  - intros productId. rewrite !initialize_productIdToCriteria.
    now destruct (find _ _).
  - intros addonId. rewrite !initialize_addonsMap.
    now destruct (find _ _).
  - intros productId Hproducts Hunknown. unfold getCriteriaByProductId.
    destruct (Js.get (productIdToCriteria (initialize s doc)) productId);
      [|reflexivity].
    unfold findProduct. rewrite initialize_maps; simpl.
    unfold productList in Hunknown.
    destruct (products (attributes doc)) as [l|]; [|now elim Hproducts].
    rewrite find_all_false; [reflexivity|].
    intros P HP. apply String.eqb_neq. now apply Hunknown.
Qed.

Lemma initialize_merges_into_previous_maps_witness :
  let s := initialize new Sample.catalog in
  products (attributes Sample.laterCatalog) <> None
  /\ (forall P, In P (productList Sample.laterCatalog) ->
                product_id P <> product_id Sample.forti4)
  /\ getCriteriaByProductId (initialize s Sample.laterCatalog)
       (product_id Sample.forti4) = Js.Returned None
  /\ getProductIdByCriteria (initialize s Sample.laterCatalog)
       (product_matchCriteria Sample.forti4)
     = getProductIdByCriteria s (product_matchCriteria Sample.forti4).
Proof.
  intros s.
  assert (Hproducts : products (attributes Sample.laterCatalog) <> None)
    by discriminate.
  assert (Hunknown : forall P, In P (productList Sample.laterCatalog) ->
                               product_id P <> product_id Sample.forti4).
  { simpl. intros P [<-|[]]. discriminate. }
  split; [exact Hproducts|]. split; [exact Hunknown|]. split.
  - exact (proj2 (proj2 (proj2 (proj2 (initialize_merges_into_previous_maps
                                         s Sample.laterCatalog))))
             (product_id Sample.forti4) Hproducts Hunknown).
  - rewrite (proj1 (proj2 (initialize_merges_into_previous_maps
                             s Sample.laterCatalog))
               (product_matchCriteria Sample.forti4)).
    reflexivity.
Defined.

(* ================================================================= *)
(** ** Further facts about dictionaries *)

Section DictMoreFacts.
Context {V : Type}.
Implicit Types (d : Js.Dict V) (k : string) (v : V).

Lemma keys_set_present d k v :
  In k (Js.keys d) -> Js.keys (Js.set d k v) = Js.keys d.
Proof.
  induction d as [|[k0 v0] rest IH]; simpl; [tauto|].
  intros Hin. destruct (String.eqb k0 k) eqn:E; simpl; [reflexivity|].
  f_equal. apply IH. destruct Hin as [->|Hin]; [|assumption].
  now rewrite String.eqb_refl in E.
Qed.

Lemma keys_set_fresh d k v :
  ~ In k (Js.keys d) -> Js.keys (Js.set d k v) = Js.keys d ++ [k].
Proof.
  intros Hfresh. rewrite (set_fresh d k v Hfresh).
  unfold Js.keys. now rewrite map_app.
Qed.

(** A write keeps the keys in place and adds at most one at the end. *)
Lemma keys_set_extends d k v :
  exists added, Js.keys (Js.set d k v) = Js.keys d ++ added.
Proof.
  destruct (in_dec string_dec k (Js.keys d)) as [Hin|Hfresh].
  - exists []. rewrite app_nil_r. now apply keys_set_present.
  - exists [k]. now apply keys_set_fresh.
Qed.

Lemma In_set d k v k' v' :
  In (k', v') (Js.set d k v) -> (k', v') = (k, v) \/ In (k', v') d.
Proof.
  induction d as [|[k0 v0] rest IH]; simpl.
  - intros [H|[]]. left. now symmetry.
  - destruct (String.eqb k0 k) eqn:E; simpl.
    + apply String.eqb_eq in E; subst k0.
      intros [H|H]; [left; now symmetry | right; now right].
    + intros [H|H]; [right; now left|].
      destruct (IH H) as [H'|H']; [now left | right; now right].
Qed.

(** Two dictionaries with the same keys in the same places and the same
    value under every key are the same dictionary. *)
Lemma dict_ext d1 d2 :
  Js.wf d1 ->
  Js.keys d1 = Js.keys d2 ->
  (forall k, Js.get d1 k = Js.get d2 k) ->
  d1 = d2.
Proof.
  unfold Js.wf, Js.keys. revert d2.
  induction d1 as [|[k1 v1] r1 IH]; intros [|[k2 v2] r2]; simpl;
    try discriminate; [reflexivity|].
  intros Hnd [= <- Hkeys] Hget.
  inversion Hnd as [|? ? Hnotin Hrest]; subst.
  pose proof (Hget k1) as Hk. rewrite !String.eqb_refl in Hk.
  injection Hk as <-. f_equal. apply IH; try assumption.
  intros k. specialize (Hget k).
  destruct (String.eqb k1 k) eqn:E; [|assumption].
  apply String.eqb_eq in E; subst k.
  assert (H1 : Js.get r1 k1 = None) by now apply get_None_iff.
  assert (H2 : Js.get r2 k1 = None).
  { apply get_None_iff. unfold Js.keys. now rewrite <- Hkeys. }
  congruence.
Qed.

Lemma keys_fold_set_present {X : Type} (kf : X -> string) (vf : X -> V)
      (xs : list X) d :
  (forall x, In x xs -> In (kf x) (Js.keys d)) ->
  Js.keys (fold_left (fun m x => Js.set m (kf x) (vf x)) xs d) = Js.keys d.
Proof.
  revert d. induction xs as [|x xs IH]; intros d Hin; simpl; [reflexivity|].
  rewrite IH.
  - apply keys_set_present. apply Hin. now left.
  - intros y Hy. rewrite keys_set_present by (apply Hin; now left).
    apply Hin. now right.
Qed.

Lemma keys_fold_set_In {X : Type} (kf : X -> string) (vf : X -> V)
      (xs : list X) d k :
  In k (Js.keys (fold_left (fun m x => Js.set m (kf x) (vf x)) xs d)) <->
  In k (Js.keys d) \/ In k (map kf xs).
Proof.
  revert d. induction xs as [|x xs IH]; intros d; simpl; [tauto|].
  rewrite IH, keys_set_In. intuition.
Qed.

(** Running a loop of writes a second time changes nothing. *)
Lemma fold_set_idempotent {X : Type} (kf : X -> string) (vf : X -> V)
      (xs : list X) d :
  Js.wf d ->
  let load := fold_left (fun m x => Js.set m (kf x) (vf x)) xs in
  load (load d) = load d.
Proof.
  intros Hwf load. unfold load. apply dict_ext.
  - apply wf_fold_set. now apply wf_fold_set.
  - apply keys_fold_set_present. intros x Hx.
    apply keys_fold_set_In. right. now apply in_map.
  - intros k. rewrite !get_fold_set. now destruct (find _ _).
Qed.

Lemma get_fold_set_keeps {X : Type} (kf : X -> string) (vf : X -> V)
      (xs : list X) d k :
  Js.get d k <> None ->
  Js.get (fold_left (fun m x => Js.set m (kf x) (vf x)) xs d) k <> None.
Proof.
  intros H. rewrite get_fold_set. now destruct (find _ _).
Qed.

End DictMoreFacts.

(* ================================================================= *)
(** ** Plain variant: further properties *)

Lemma Plain_fold_register ps s :
  fold_left Plain.register ps s =
  Plain.mkService (Plain.data s)
                  (fold_left keyEntry ps (Plain.criteriaToProductId s))
                  (fold_left idEntry ps (Plain.productIdToCriteria s)).
Proof.
  revert s. induction ps as [|p ps IH]; intros s; simpl.
  - now destruct s.
  - now rewrite IH.
Qed.

Lemma find_some_key {X : Type} (kf : X -> string) (l : list X) k x :
  find (fun y => String.eqb (kf y) k) l = Some x -> In x l /\ kf x = k.
Proof.
  intros H. apply find_some in H. destruct H as [Hin Heq].
  split; [assumption|]. now apply String.eqb_eq.
Qed.

Lemma find_key_present {X : Type} (kf : X -> string) (l : list X) x :
  In x l -> find (fun y => String.eqb (kf y) (kf x)) l <> None.
Proof.
  intros Hin Hnone. pose proof (find_none _ _ Hnone x Hin) as H.
  simpl in H. now rewrite String.eqb_refl in H.
Qed.

(** With pairwise different keys the scan for the key of an element
    finds that element, from either end. *)
Lemma find_rev_NoDup {X : Type} (kf : X -> string) (l : list X) x :
  NoDup (map kf l) -> In x l ->
  find (fun y => String.eqb (kf y) (kf x)) (rev l) = Some x.
Proof.
  intros Hnd Hin. destruct (in_split _ _ Hin) as [before [after Hsplit]].
  rewrite Hsplit in *. apply find_rev_last.
  now apply (NoDup_map_after kf before x after).
Qed.

Lemma find_first {X : Type} (kf : X -> string) before x after :
  (forall y, In y before -> kf y <> kf x) ->
  find (fun y => String.eqb (kf y) (kf x)) (before ++ x :: after) = Some x.
Proof.
  intros Hbefore. rewrite find_app, find_all_false.
  - simpl. now rewrite String.eqb_refl.
  - intros y Hy. apply String.eqb_neq. now apply Hbefore.
Qed.

Lemma find_NoDup {X : Type} (kf : X -> string) (l : list X) x :
  NoDup (map kf l) -> In x l ->
  find (fun y => String.eqb (kf y) (kf x)) l = Some x.
Proof.
  intros Hnd Hin. destruct (in_split _ _ Hin) as [before [after Hsplit]].
  rewrite Hsplit in *. apply find_first.
  intros y Hy Heq. rewrite map_app in Hnd. simpl in Hnd.
  apply NoDup_remove_2 in Hnd. apply Hnd.
  apply in_or_app. left. rewrite <- Heq. now apply in_map.
Qed.

(** X1. Round trip from id to criteria: in a catalog whose products have
    pairwise different ids, the lookup of the id of a product of the
    document answers with the criteria of that product. *)
Theorem Plain_getCriteriaByProductId_round_trip :
  forall (doc : ProductData) (P : Product),
    NoDup (map product_id (productList doc)) ->
    In P (productList doc) ->
    Plain.getCriteriaByProductId (Plain.new doc) (product_id P)
    = Some (product_matchCriteria P).
Proof.
  intros doc P Hnd Hin.
  rewrite Plain_getCriteriaByProductId_last.
  destruct (in_split _ _ Hin) as [before [after Hsplit]].
  rewrite Hsplit in *.
  rewrite (find_rev_last product_id before P after); [reflexivity|].
  now apply (NoDup_map_after product_id before P after).
Qed.

Lemma Plain_getCriteriaByProductId_round_trip_witness :
  NoDup (map product_id (productList Sample.catalog))
  /\ In Sample.palo (productList Sample.catalog)
  /\ Plain.getCriteriaByProductId (Plain.new Sample.catalog)
       "01HE1D78EC698B5C41F4A889"%string
     = Some [("vendor", "palo-alto")]%string.
Proof.
  assert (Hnd : NoDup (map product_id (productList Sample.catalog)))
    by distinct_strings.
  assert (Hin : In Sample.palo (productList Sample.catalog)).
  { simpl. right. right. now left. }
  split; [exact Hnd|]. split; [exact Hin|].
  exact (Plain_getCriteriaByProductId_round_trip
           Sample.catalog Sample.palo Hnd Hin).
Defined.

(** X2. The two exact lookups compose: an id answered by the lookup by
    criteria is the id of a product of the document whose canonical key
    is the key of the query, and the lookup of that id always finds
    criteria; with pairwise different ids those criteria have the
    canonical key of the query. *)
Theorem Plain_lookups_compose :
  forall (doc : ProductData) (criteria : MatchCriteria) (productId : string),
    Plain.getProductIdByCriteria (Plain.new doc) criteria = Some productId ->
    (exists P, In P (productList doc)
               /\ product_id P = productId
               /\ canonicalKeyOf P = generateCriteriaKey criteria)
    /\ (exists stored,
           Plain.getCriteriaByProductId (Plain.new doc) productId
           = Some stored)
    /\ (NoDup (map product_id (productList doc)) ->
        exists stored,
          Plain.getCriteriaByProductId (Plain.new doc) productId
          = Some stored
          /\ generateCriteriaKey stored = generateCriteriaKey criteria).
Proof.
  intros doc criteria productId Hfound.
  rewrite Plain_getProductIdByCriteria_last in Hfound.
  destruct (find _ (rev (productList doc))) as [P|] eqn:Efind;
    [|discriminate].
  injection Hfound as <-.
  apply find_some_key in Efind. destruct Efind as [Hin Hkey].
  apply in_rev in Hin.
  split; [|split].
  - now exists P.
  - rewrite Plain_getCriteriaByProductId_last.
    destruct (find _ (rev (productList doc))) as [Q|] eqn:EQ.
    + now exists (product_matchCriteria Q).
    + exfalso. apply (find_key_present product_id (rev (productList doc)) P).
      * now apply in_rev in Hin.
      * exact EQ.
  - intros Hnd. exists (product_matchCriteria P). split; [|exact Hkey].
    rewrite Plain_getCriteriaByProductId_last.
    now rewrite (find_rev_NoDup product_id (productList doc) P Hnd Hin).
Qed.

Lemma Plain_lookups_compose_witness :
  exists stored,
    Plain.getCriteriaByProductId (Plain.new Sample.catalog)
      "8800190627841"%string = Some stored
    /\ generateCriteriaKey stored = "cpu:4-cpu|vendor:fortigate"%string.
Proof.
  assert (Hfound : Plain.getProductIdByCriteria
                     (Plain.new Sample.catalog)
                     [("cpu", "4-cpu"); ("vendor", "fortigate")]%string
                   = Some "8800190627841"%string) by reflexivity.
  assert (Hnd : NoDup (map product_id (productList Sample.catalog)))
    by distinct_strings.
  exact (proj2 (proj2 (Plain_lookups_compose Sample.catalog _ _ Hfound)) Hnd).
Defined.

(** X3. [getAllProducts] lists the stored entries: one entry per product
    id of the document and no other, each with the criteria the lookup by
    id answers, so that its length is the number of distinct product ids;
    with pairwise different ids it is the products in document order. *)
Theorem getAllProducts_spec :
  forall (doc : ProductData),
    let s := Plain.new doc in
    let all := Plain.getAllProducts s in
    NoDup (map fst all)
    /\ (forall id criteria,
           In (id, criteria) all <->
           Plain.getCriteriaByProductId s id = Some criteria)
    /\ (forall id,
           In id (map fst all) <-> In id (map product_id (productList doc)))
    /\ length all
       = length (nodup string_dec (map product_id (productList doc)))
    /\ (NoDup (map product_id (productList doc)) ->
        all = map entryOf (productList doc)).
Proof.
  intros doc s all.
  assert (Hall : all = Plain.productIdToCriteria s)
    by apply getAllProducts_entries.
  destruct (Plain_new_wf doc) as [_ Hwf]. fold s in Hwf.
  assert (Hkeys : forall id,
             In id (map fst all) <->
             In id (map product_id (productList doc))).
  { intros id. rewrite Hall. unfold s.
    rewrite Plain_new_productIdToCriteria.
    change (map fst ?d) with (Js.keys d). unfold idEntry.
    rewrite (keys_fold_set_In product_id product_matchCriteria). simpl. tauto. }
  split; [|split; [|split; [|split]]].
  - rewrite Hall. exact Hwf.
  - intros id criteria. rewrite Hall. unfold Plain.getCriteriaByProductId.
    split; [now apply In_get | apply get_Some_In].
  - exact Hkeys.
  - rewrite <- (length_map fst all). apply Permutation_length.
    apply NoDup_Permutation.
    + rewrite Hall. exact Hwf.
    + apply NoDup_nodup.
    + intros id. rewrite nodup_In. apply Hkeys.
  - intros Hnd. rewrite Hall. unfold s.
    rewrite Plain_new_productIdToCriteria.
    now rewrite (fold_idEntry_distinct (productList doc) []).
Qed.

Lemma getAllProducts_spec_witness :
  length (Plain.getAllProducts (Plain.new Sample.catalogWithDuplicates)) = 3
  /\ Plain.getAllProducts (Plain.new Sample.catalog)
     = [entryOf Sample.forti4; entryOf Sample.forti2; entryOf Sample.palo].
Proof.
  split.
  - rewrite (proj1 (proj2 (proj2 (proj2 (getAllProducts_spec
                                           Sample.catalogWithDuplicates))))).
    reflexivity.
  - apply (proj2 (proj2 (proj2 (proj2 (getAllProducts_spec Sample.catalog))))).
    distinct_strings.
Defined.

(** X4. Calling [initialize] once more on a constructed service leaves
    it as it is: every [set] of the second pass rewrites a key that is
    already there, and the last write per key is the same as before. *)
Theorem Plain_initialize_idempotent :
  forall (doc : ProductData),
    Plain.initialize (Plain.new doc) = Plain.new doc.
Proof.
  intros doc. unfold Plain.new, Plain.initialize; simpl.
  destruct (products (attributes doc)) as [ps|] eqn:Eps; simpl;
    [|now rewrite Eps].
  rewrite !Plain_fold_register; simpl. rewrite Eps.
  rewrite Plain_fold_register; simpl.
  unfold keyEntry, idEntry.
  rewrite (fold_set_idempotent canonicalKeyOf product_id ps [])
    by constructor.
  rewrite (fold_set_idempotent product_id product_matchCriteria ps [])
    by constructor.
  reflexivity.
Qed.

Lemma searchByPartialCriteria_filter s partialCriteria :
  Plain.searchByPartialCriteria s partialCriteria =
  filter (entryMatches partialCriteria) (Plain.productIdToCriteria s).
Proof.
  unfold Plain.searchByPartialCriteria. now rewrite search_loop.
Qed.

(** X5. Adding pairs to the partial criteria only narrows the search:
    every entry found with the larger mapping is found with the smaller
    one, on any service. *)
Theorem searchByPartialCriteria_narrows :
  forall (s : Plain.ProductLookupService) (fewer more : MatchCriteria),
    (forall key value, In (key, value) fewer -> In (key, value) more) ->
    forall entry,
      In entry (Plain.searchByPartialCriteria s more) ->
      In entry (Plain.searchByPartialCriteria s fewer).
Proof.
  intros s fewer more Hsub entry.
  rewrite !searchByPartialCriteria_filter, !filter_In.
  unfold entryMatches, Js.entries. rewrite !matchesLoop_spec.
  intros [Hin Hagree]. split; [assumption|].
  intros key value Hpair. apply Hagree. now apply Hsub.
Qed.

Lemma searchByPartialCriteria_narrows_witness :
  In (entryOf Sample.forti4)
     (Plain.searchByPartialCriteria (Plain.new Sample.catalog)
        [("vendor", "fortigate")]%string).
Proof.
  apply (searchByPartialCriteria_narrows
           (Plain.new Sample.catalog)
           [("vendor", "fortigate")]%string
           [("cpu", "4-cpu"); ("vendor", "fortigate")]%string).
  - intros key value [H|[]]. right. now left.
  - simpl. now left.
Defined.

(** X6. Searching with the complete criteria of a stored product finds
    that product: an entry the lookup by id answers is among the results
    of the search for its own criteria. *)
Theorem searchByPartialCriteria_finds_own_criteria :
  forall (s : Plain.ProductLookupService) (productId : string)
         (criteria : MatchCriteria),
    Js.wf criteria ->
    Plain.getCriteriaByProductId s productId = Some criteria ->
    In (productId, criteria) (Plain.searchByPartialCriteria s criteria).
Proof.
  intros s productId criteria Hwf Hget.
  rewrite searchByPartialCriteria_filter, filter_In. split.
  - now apply get_Some_In.
  - unfold entryMatches, Js.entries; simpl. apply matchesLoop_spec.
    intros key value Hin. now apply In_get.
Qed.

Lemma searchByPartialCriteria_finds_own_criteria_witness :
  In ("8796158984193"%string, product_matchCriteria Sample.forti2)
     (Plain.searchByPartialCriteria (Plain.new Sample.catalog)
        (product_matchCriteria Sample.forti2)).
Proof.
  apply searchByPartialCriteria_finds_own_criteria.
  - distinct_strings.
  - reflexivity.
Defined.

(* ================================================================= *)
(** ** Key codec: no collision between simple tokens *)

Lemma hasChar_append c a b :
  hasChar c (a ++ b)%string = hasChar c a || hasChar c b.
Proof.
  induction a as [|x a IH]; simpl; [reflexivity|].
  now destruct (Ascii.eqb x c).
Qed.

(** A text is cut in one way only at the first occurrence of a unit. *)
Lemma append_sep_inj c a1 a2 r1 r2 :
  hasChar c a1 = false ->
  hasChar c a2 = false ->
  (a1 ++ String c r1)%string = (a2 ++ String c r2)%string ->
  a1 = a2 /\ r1 = r2.
Proof.
  revert a2. induction a1 as [|x a1 IH]; intros [|y a2]; simpl.
  - intros _ _ [= ->]. now split.
  - intros _ Hy [= <- _]. now rewrite Ascii.eqb_refl in Hy.
  - intros Hx _ [= -> _]. now rewrite Ascii.eqb_refl in Hx.
  - intros Hx Hy [= <- Heq].
    destruct (Ascii.eqb x c); [discriminate|].
    destruct (IH a2 Hx Hy Heq) as [-> ->]. now split.
Qed.

Lemma renderPair_inj p q :
  hasChar ":" (fst p) = false ->
  hasChar ":" (fst q) = false ->
  renderPair p = renderPair q -> p = q.
Proof.
  destruct p as [k1 v1], q as [k2 v2]; unfold renderPair; simpl.
  intros H1 H2 Heq.
  destruct (append_sep_inj ":" k1 k2 v1 v2 H1 H2 Heq) as [-> ->].
  reflexivity.
Qed.

Lemma renderPair_no_bar p :
  hasChar "|" (fst p) = false ->
  hasChar "|" (snd p) = false ->
  hasChar "|" (renderPair p) = false.
Proof.
  intros Hk Hv. unfold renderPair.
  change (fst p ++ ":" ++ snd p)%string
    with (fst p ++ String ":" (snd p))%string.
  rewrite hasChar_append, Hk. simpl. exact Hv.
Qed.

Lemma renderPair_not_empty p : renderPair p <> ""%string.
Proof.
  destruct p as [k v]. unfold renderPair; simpl.
  destruct k; discriminate.
Qed.

Lemma join_cons sep x y l :
  Js.join sep (x :: y :: l) = (x ++ sep ++ Js.join sep (y :: l))%string.
Proof. reflexivity. Qed.

(** Joined texts that hold no separator and are not empty can be read
    back from the joined text. *)
Lemma join_bar_inj l1 l2 :
  (forall t, In t l1 -> hasChar "|" t = false /\ t <> ""%string) ->
  (forall t, In t l2 -> hasChar "|" t = false /\ t <> ""%string) ->
  Js.join "|"%string l1 = Js.join "|"%string l2 ->
  l1 = l2.
Proof.
  revert l2.
  induction l1 as [|x l1 IH]; intros [|y l2] H1 H2 Heq.
  - reflexivity.
  - exfalso. destruct (H2 y (or_introl eq_refl)) as [_ Hy].
    destruct l2 as [|z l2]; simpl in Heq.
    + now apply Hy.
    + destruct y; [now apply Hy | discriminate].
  - exfalso. destruct (H1 x (or_introl eq_refl)) as [_ Hx].
    destruct l1 as [|z l1]; simpl in Heq.
    + now apply Hx.
    + destruct x; [now apply Hx | discriminate].
  - destruct (H1 x (or_introl eq_refl)) as [Hx _].
    destruct (H2 y (or_introl eq_refl)) as [Hy _].
    destruct l1 as [|x' l1], l2 as [|y' l2].
    + simpl in Heq. now subst.
    + exfalso. rewrite join_cons in Heq. simpl Js.join at 1 in Heq.
      rewrite Heq in Hx.
      change (y ++ "|" ++ Js.join "|" (y' :: l2))%string
        with (y ++ String "|" (Js.join "|" (y' :: l2)))%string in Hx.
      rewrite hasChar_append in Hx. simpl in Hx.
      now rewrite orb_true_r in Hx.
    + exfalso. rewrite join_cons in Heq. simpl Js.join at 2 in Heq.
      rewrite <- Heq in Hy.
      change (x ++ "|" ++ Js.join "|" (x' :: l1))%string
        with (x ++ String "|" (Js.join "|" (x' :: l1)))%string in Hy.
      rewrite hasChar_append in Hy. simpl in Hy.
      now rewrite orb_true_r in Hy.
    + rewrite !join_cons in Heq.
      change (x ++ "|" ++ Js.join "|" (x' :: l1))%string
        with (x ++ String "|" (Js.join "|" (x' :: l1)))%string in Heq.
      change (y ++ "|" ++ Js.join "|" (y' :: l2))%string
        with (y ++ String "|" (Js.join "|" (y' :: l2)))%string in Heq.
      destruct (append_sep_inj "|" x y _ _ Hx Hy Heq) as [-> Hrest].
      f_equal. apply IH.
      * intros t Ht. apply H1. now right.
      * intros t Ht. apply H2. now right.
      * exact Hrest.
Qed.

Lemma map_renderPair_inj l1 l2 :
  (forall p, In p l1 -> hasChar ":" (fst p) = false) ->
  (forall p, In p l2 -> hasChar ":" (fst p) = false) ->
  map renderPair l1 = map renderPair l2 -> l1 = l2.
Proof.
  revert l2. induction l1 as [|p l1 IH]; intros [|q l2] H1 H2; simpl;
    try discriminate; [reflexivity|].
  intros [= Hpq Hrest]. f_equal.
  - apply renderPair_inj; [apply H1 | apply H2 | assumption]; now left.
  - apply IH; [| |assumption]; intros r Hr; [apply H1|apply H2]; now right.
Qed.

Lemma sortedPairs_simple criteria p :
  Js.wf criteria -> simpleTokens criteria ->
  In p (sortedPairs criteria) ->
  hasChar ":" (fst p) = false
  /\ hasChar "|" (fst p) = false
  /\ hasChar "|" (snd p) = false.
Proof.
  intros Hwf Hsimple Hin.
  apply (Permutation_in _ (sortedPairs_perm criteria Hwf)) in Hin.
  destruct p as [k v]. exact (Hsimple k v Hin).
Qed.

(** The pairs can be read back from the canonical key of simple tokens. *)
Lemma simple_tokens_key_inj (c1 c2 : MatchCriteria) :
  Js.wf c1 -> Js.wf c2 ->
  simpleTokens c1 -> simpleTokens c2 ->
  generateCriteriaKey c1 = generateCriteriaKey c2 ->
  Permutation c1 c2.
Proof.
  intros Hwf1 Hwf2 Hs1 Hs2 Hkey.
  rewrite !generateCriteriaKey_sortedPairs in Hkey.
  apply join_bar_inj in Hkey.
  - apply map_renderPair_inj in Hkey.
    + rewrite <- (sortedPairs_perm c1 Hwf1), <- (sortedPairs_perm c2 Hwf2).
      now rewrite Hkey.
    + intros p Hp. now apply (sortedPairs_simple c1 p Hwf1 Hs1).
    + intros p Hp. now apply (sortedPairs_simple c2 p Hwf2 Hs2).
  - intros t Ht. apply in_map_iff in Ht. destruct Ht as [p [<- Hp]].
    split; [|apply renderPair_not_empty].
    apply renderPair_no_bar;
      now apply (sortedPairs_simple c1 p Hwf1 Hs1).
  - intros t Ht. apply in_map_iff in Ht. destruct Ht as [p [<- Hp]].
    split; [|apply renderPair_not_empty].
    apply renderPair_no_bar;
      now apply (sortedPairs_simple c2 p Hwf2 Hs2).
Qed.

(** X7. Between criteria made of simple tokens the canonical key has no
    collision: when no key holds [":"] or ["|"] and no value holds ["|"],
    two mappings with the same canonical key hold the same pairs and
    answer every property read alike. *)
Theorem generateCriteriaKey_injective_on_simple_tokens :
  forall c1 c2 : MatchCriteria,
    Js.wf c1 -> Js.wf c2 ->
    simpleTokens c1 -> simpleTokens c2 ->
    generateCriteriaKey c1 = generateCriteriaKey c2 ->
    Permutation c1 c2 /\ (forall key, Js.get c1 key = Js.get c2 key).
Proof.
  intros c1 c2 Hwf1 Hwf2 Hs1 Hs2 Hkey.
  pose proof (simple_tokens_key_inj c1 c2 Hwf1 Hwf2 Hs1 Hs2 Hkey) as Hperm.
  split; [exact Hperm|].
  intros key. now apply get_Permutation.
Qed.

(** Closes [simpleTokens] goals on explicit mappings. *)
Ltac simple_tokens :=
  let H := fresh in
  intros ? ? H; simpl in H;
  repeat (destruct H as [H|H];
          [injection H as <- <-; repeat split; reflexivity|]);
  contradiction.

Lemma generateCriteriaKey_injective_on_simple_tokens_witness :
  let c1 : MatchCriteria :=
    [("vendor", "fortigate"); ("cpu", "4-cpu")]%string in
  let c2 : MatchCriteria :=
    [("cpu", "4-cpu"); ("vendor", "fortigate")]%string in
  generateCriteriaKey c1 = generateCriteriaKey c2 /\ Permutation c1 c2.
Proof.
  intros c1 c2.
  assert (Hkey : generateCriteriaKey c1 = generateCriteriaKey c2)
    by reflexivity.
  split; [exact Hkey|].
  apply (generateCriteriaKey_injective_on_simple_tokens c1 c2).
  - distinct_strings.
  - distinct_strings.
  - unfold c1. simple_tokens.
  - unfold c2. simple_tokens.
  - exact Hkey.
Defined.

(** X8. In a catalog of simple tokens the exact lookup is exact: queried
    with criteria of simple tokens, it only answers with the id of a
    product of the document that has the very pairs of the query. *)
Theorem getProductIdByCriteria_exact_on_simple_tokens :
  forall (doc : ProductData) (criteria : MatchCriteria) (productId : string),
    (forall P, In P (productList doc) ->
               Js.wf (product_matchCriteria P)
               /\ simpleTokens (product_matchCriteria P)) ->
    Js.wf criteria ->
    simpleTokens criteria ->
    Plain.getProductIdByCriteria (Plain.new doc) criteria = Some productId ->
    exists P,
      In P (productList doc)
      /\ product_id P = productId
      /\ Permutation (product_matchCriteria P) criteria.
Proof.
  intros doc criteria productId Hcatalog Hwf Hsimple Hfound.
  rewrite Plain_getProductIdByCriteria_last in Hfound.
  destruct (find _ (rev (productList doc))) as [P|] eqn:Efind;
    [|discriminate].
  injection Hfound as <-.
  apply find_some_key in Efind. destruct Efind as [Hin Hkey].
  apply in_rev in Hin. destruct (Hcatalog P Hin) as [HwfP HsimpleP].
  exists P. split; [assumption|]. split; [reflexivity|].
  now apply (simple_tokens_key_inj (product_matchCriteria P) criteria).
Qed.

Lemma getProductIdByCriteria_exact_on_simple_tokens_witness :
  exists P,
    In P (productList Sample.catalog)
    /\ product_id P = "8800190627841"%string
    /\ Permutation (product_matchCriteria P)
                   [("cpu", "4-cpu"); ("vendor", "fortigate")]%string.
Proof.
  apply (getProductIdByCriteria_exact_on_simple_tokens Sample.catalog).
  - simpl. intros P [<-|[<-|[<-|[]]]]; split;
      try distinct_strings; simple_tokens.
  - distinct_strings.
  - simple_tokens.
  - reflexivity.
Defined.

(* ================================================================= *)
(** ** Tree walk: what the accumulator holds *)

Lemma record_step_agrees (criteria : MatchCriteria) node criteriaValue
      option (sel : SelectedOptions) :
  Js.get criteria (node_id node) = Some criteriaValue ->
  Js.truthy (Some criteriaValue) = true ->
  findOption node criteriaValue = Some option ->
  (forall id o, In (id, o) sel ->
                Js.get criteria id = Some (opt_value o)
                /\ opt_value o <> ""%string) ->
  forall id o,
    In (id, o) (Js.set sel (node_id node) option) ->
    Js.get criteria id = Some (opt_value o)
    /\ opt_value o <> ""%string.
Proof.
  intros Hget Htruthy Hfind Hacc id o Hin.
  apply In_set in Hin.
  destruct Hin as [[= -> ->]|Hin]; [|now apply Hacc].
  apply findOption_In in Hfind. destruct Hfind as [_ ->].
  split; [assumption|]. now apply truthy_Some.
Qed.

(** X9. The walk records what the criteria select: started on an
    accumulator whose options are the criteria values of their ids, it
    returns such an accumulator; from the empty accumulator every recorded
    option is, under its id, the option whose value the criteria give to
    that id, and that value is not empty. *)
Theorem traverseTree_records_criteria_values :
  forall (node : TreeNode) (criteria : MatchCriteria)
         (selectedOptions : SelectedOptions),
    (forall id option,
        In (id, option) selectedOptions ->
        Js.get criteria id = Some (opt_value option)
        /\ opt_value option <> ""%string) ->
    forall id option,
      In (id, option) (traverseTree node criteria selectedOptions) ->
      Js.get criteria id = Some (opt_value option)
      /\ opt_value option <> ""%string.
Proof.
  intros node criteria selectedOptions.
  functional induction (traverseTree node criteria selectedOptions);
    intros Hacc id opt Hin; try (now apply Hacc).
  - now apply (record_step_agrees criteria node criteriaValue option
                                  selectedOptions).
  - apply IHs; [|exact Hin].
    now apply (record_step_agrees criteria node criteriaValue option
                                  selectedOptions).
Qed.

Lemma traverseTree_records_criteria_values_witness :
  let criteria : MatchCriteria :=
    [("vendor", "fortigate"); ("cpu", "4-cpu")]%string in
  let fourCpu := mkTreeOption "4-cpu" "4 CPU" "4-ar" None in
  In ("cpu"%string, fourCpu) (traverseTree Sample.vendorNode criteria [])
  /\ Js.get criteria "cpu"%string = Some (opt_value fourCpu)
  /\ opt_value fourCpu <> ""%string.
Proof.
  intros criteria fourCpu.
  assert (Hin : In ("cpu"%string, fourCpu)
                   (traverseTree Sample.vendorNode criteria [])).
  { simpl. right. now left. }
  split; [exact Hin|].
  apply (traverseTree_records_criteria_values
           Sample.vendorNode criteria []); [|exact Hin].
  intros id option [].
Defined.

Lemma traverseTree_keys (criteria : MatchCriteria) :
  forall node (sel : SelectedOptions) id,
    In id (Js.keys (traverseTree node criteria sel)) <->
    In id (Js.keys sel)
    \/ In id (Js.keys (traverseTree node criteria [])).
Proof.
  assert (Hstep : forall fuel node (sel : SelectedOptions) id,
             depth node <= fuel ->
             In id (Js.keys (traverseTree node criteria sel)) <->
             In id (Js.keys sel)
             \/ In id (Js.keys (traverseTree node criteria []))).
  { induction fuel as [|fuel IH]; intros node sel id Hfuel.
    - rewrite depth_unfold in Hfuel. lia.
    - rewrite (traverseTree_eq node criteria sel),
              (traverseTree_eq node criteria []).
      destruct (Js.get criteria (node_id node)) as [v|]; [|simpl; tauto].
      destruct (Js.truthy (Some v)); [|simpl; tauto].
      destruct (findOption node v) as [option|] eqn:Hfind; [|simpl; tauto].
      cbv zeta.
      destruct (opt_children option) as [children|] eqn:Hch.
      + apply findOption_In in Hfind.
        pose proof (depth_child_lt node option children (proj1 Hfind) Hch).
        rewrite (IH children (Js.set sel (node_id node) option) id)
          by lia.
        rewrite (IH children (Js.set [] (node_id node) option) id)
          by lia.
        rewrite !keys_set_In. simpl. tauto.
      + rewrite !keys_set_In. simpl. tauto. }
  intros node sel id. apply (Hstep (depth node)). lia.
Qed.

(** X10. The walk never removes an entry of the accumulator it is given,
    and the ids it adds are those it records from the empty accumulator,
    each an id to which the criteria give a value that is not empty.
    Started on the empty accumulator it records nothing when the criteria
    select no option of the root, and otherwise the id of the root is
    among the recorded ids (for an id other than [__proto__], which an
    assignment does not turn into a key). *)
Theorem traverseTree_keeps_earlier_keys :
  forall (node : TreeNode) (criteria : MatchCriteria)
         (selectedOptions : SelectedOptions),
    let selected :=
      match Js.get criteria (node_id node) with
      | Some criteriaValue =>
          if Js.truthy (Some criteriaValue)
          then findOption node criteriaValue
          else None
      | None => None
      end in
    (forall id,
        In id (Js.keys (traverseTree node criteria selectedOptions)) <->
        In id (Js.keys selectedOptions)
        \/ In id (Js.keys (traverseTree node criteria [])))
    /\ (forall id,
           In id (Js.keys (traverseTree node criteria [])) ->
           Js.truthy (Js.get criteria id) = true)
    /\ (selected = None -> traverseTree node criteria [] = [])
    /\ (selected <> None ->
        node_id node <> "__proto__"%string ->
        In (node_id node) (Js.keys (traverseTree node criteria []))).
Proof.
  intros node criteria selectedOptions selected.
  split; [intros id; apply traverseTree_keys|].
  split.
  { intros id Hin. unfold Js.keys in Hin. apply in_map_iff in Hin.
    destruct Hin as [[id' option] [<- Hin]]. simpl.
    assert (Hacc : forall k (o : TreeOption),
               In (k, o) [] ->
               Js.get criteria k = Some (opt_value o)
               /\ opt_value o <> ""%string) by (intros k o []).
    assert (Hagree : forall fuel n (sel : SelectedOptions),
               depth n <= fuel ->
               (forall k o, In (k, o) sel ->
                            Js.get criteria k = Some (opt_value o)
                            /\ opt_value o <> ""%string) ->
               forall k o, In (k, o) (traverseTree n criteria sel) ->
                           Js.get criteria k = Some (opt_value o)
                           /\ opt_value o <> ""%string).
    { induction fuel as [|fuel IH]; intros n sel Hfuel Hsel k o.
      - rewrite depth_unfold in Hfuel. lia.
      - rewrite traverseTree_eq.
        destruct (Js.get criteria (node_id n)) as [v|] eqn:Hget;
          [|apply Hsel].
        destruct (Js.truthy (Some v)) eqn:Htruthy; [|apply Hsel].
        destruct (findOption n v) as [opt|] eqn:Hfind; [|apply Hsel].
        cbv zeta.
        pose proof (record_step_agrees criteria n v opt sel
                      Hget Htruthy Hfind Hsel) as Hset.
        destruct (opt_children opt) as [children|] eqn:Hch; [|apply Hset].
        apply IH; [|exact Hset].
        apply findOption_In in Hfind.
        pose proof (depth_child_lt n opt children (proj1 Hfind) Hch). lia. }
    destruct (Hagree (depth node) node [] (le_n _) Hacc id' option Hin)
      as [Hget Hne].
    rewrite Hget. now apply truthy_Some. }
  unfold selected. rewrite traverseTree_eq.
  destruct (Js.get criteria (node_id node)) as [v|];
    [|split; [reflexivity | intros H; now elim H]].
  destruct (Js.truthy (Some v));
    [|split; [reflexivity | intros H; now elim H]].
  destruct (findOption node v) as [option|];
    [|split; [reflexivity | intros H; now elim H]].
  split; [discriminate|]. intros _ _. cbv zeta.
  destruct (opt_children option) as [children|].
  - apply traverseTree_keys. left. simpl. now left.
  - simpl. now left.
Qed.

Lemma traverseTree_keeps_earlier_keys_witness :
  In "vendor"%string
     (Js.keys (traverseTree Sample.vendorNode
                 [("cpu", "4-cpu"); ("vendor", "fortigate")]%string [])).
Proof.
  apply (proj2 (proj2 (proj2 (traverseTree_keeps_earlier_keys
                                Sample.vendorNode
                                [("cpu", "4-cpu"); ("vendor", "fortigate")]%string
                                [])))).
  - discriminate.
  - discriminate.
Defined.

(* ================================================================= *)
(** ** Enriched variant: the states the service goes through *)

Lemma reachable_wf s :
  reachable s ->
  Js.wf (criteriaToProductId s)
  /\ Js.wf (productIdToCriteria s)
  /\ Js.wf (addonsMap s).
Proof.
  induction 1 as [|s doc _ [IH1 [IH2 IH3]]].
  - repeat split; constructor.
  - rewrite initialize_maps; simpl. unfold keyEntry, idEntry, addonEntry.
    repeat split.
    + now apply (wf_fold_set canonicalKeyOf product_id).
    + now apply (wf_fold_set product_id product_matchCriteria).
    + now apply (wf_fold_set addon_id (fun a => a)).
Qed.

(** Every addon is registered under its own id. *)
Lemma reachable_addon_keys s :
  reachable s ->
  forall addonId addon,
    Js.get (addonsMap s) addonId = Some addon -> addon_id addon = addonId.
Proof.
  induction 1 as [|s doc _ IH]; intros addonId addon; [discriminate|].
  rewrite initialize_addonsMap.
  destruct (find _ (rev (addonList doc))) as [a|] eqn:Efind.
  - intros [= <-]. now apply find_some_key in Efind.
  - apply IH.
Qed.

(** Before the first [initialize] the service is the constructed one. *)
Lemma reachable_unloaded s :
  reachable s -> data s = None -> s = new.
Proof.
  destruct 1 as [|s doc _]; [reflexivity|].
  rewrite initialize_maps. discriminate.
Qed.

(** X11. The document given to [initialize] takes precedence over
    whatever the service held: on any earlier state, a product of the new
    document is found by its criteria when canonical keys differ pairwise,
    its criteria are stored under its id when ids differ pairwise, and an
    addon of the new document is registered under its id when addon ids
    differ pairwise. *)
Theorem initialize_new_document_wins :
  forall (s : ProductLookupService) (doc : ProductData),
    let s' := initialize s doc in
    (NoDup (map canonicalKeyOf (productList doc)) ->
     forall P, In P (productList doc) ->
               getProductIdByCriteria s' (product_matchCriteria P)
               = Some (product_id P))
    /\ (NoDup (map product_id (productList doc)) ->
        forall P, In P (productList doc) ->
                  Js.get (productIdToCriteria s') (product_id P)
                  = Some (product_matchCriteria P))
    /\ (NoDup (map addon_id (addonList doc)) ->
        forall a, In a (addonList doc) ->
                  Js.get (addonsMap s') (addon_id a) = Some a).
Proof.
  intros s doc s'. unfold s'. split; [|split]; intros Hnd x Hin.
  - rewrite initialize_getProductIdByCriteria. fold (canonicalKeyOf x).
    now rewrite (find_rev_NoDup canonicalKeyOf _ x Hnd Hin).
  - rewrite initialize_productIdToCriteria.
    now rewrite (find_rev_NoDup product_id _ x Hnd Hin).
  - rewrite initialize_addonsMap.
    now rewrite (find_rev_NoDup addon_id _ x Hnd Hin).
Qed.

Lemma initialize_new_document_wins_witness :
  let s := initialize new Sample.catalogWithDuplicates in
  getProductIdByCriteria (initialize s Sample.catalog)
    (product_matchCriteria Sample.forti4)
  = Some "8800190627841"%string
  /\ getProductIdByCriteria s (product_matchCriteria Sample.forti4)
     = Some "9900000000001"%string.
Proof.
  intros s. split; [|reflexivity].
  apply (proj1 (initialize_new_document_wins s Sample.catalog)).
  - distinct_strings.
  - simpl. now left.
Defined.

(** X12. In every state the service goes through, the three maps hold
    one entry per key, every id the criteria map answers with has
    criteria stored under it, and a service that was never initialized
    holds nothing. *)
Theorem reachable_invariant :
  forall (s : ProductLookupService),
    reachable s ->
    Js.wf (criteriaToProductId s)
    /\ Js.wf (productIdToCriteria s)
    /\ Js.wf (addonsMap s)
    /\ (forall criteria productId,
           getProductIdByCriteria s criteria = Some productId ->
           Js.get (productIdToCriteria s) productId <> None)
    /\ (data s = None -> s = new).
Proof.
  intros s Hs.
  destruct (reachable_wf s Hs) as [H1 [H2 H3]].
  split; [exact H1|]. split; [exact H2|]. split; [exact H3|].
  split; [|now apply reachable_unloaded].
  clear H1 H2 H3.
  induction Hs as [|s doc _ IH]; intros criteria productId;
    [discriminate|].
  rewrite initialize_getProductIdByCriteria, initialize_productIdToCriteria.
  destruct (find _ (rev (productList doc))) as [P|] eqn:Ekey.
  - intros [= <-]. apply find_some_key in Ekey. destruct Ekey as [Hin _].
    destruct (find (fun p => String.eqb (product_id p) (product_id P))
                   (rev (productList doc))) as [Q|] eqn:Eid;
      [discriminate|].
    exfalso. exact (find_key_present product_id _ P Hin Eid).
  - intros Hold. specialize (IH criteria productId Hold).
    destruct (find (fun p => String.eqb (product_id p) productId)
                   (rev (productList doc)));
      [discriminate|exact IH].
Qed.

Lemma reachable_invariant_witness :
  let s := initialize (initialize new Sample.catalog) Sample.laterCatalog in
  reachable s
  /\ Js.get (productIdToCriteria s) "8800190627841"%string <> None.
Proof.
  intros s.
  assert (Hs : reachable s) by (repeat constructor).
  split; [exact Hs|].
  apply (proj1 (proj2 (proj2 (proj2 (reachable_invariant s Hs))))
           (product_matchCriteria Sample.forti4)).
  reflexivity.
Defined.

(* ================================================================= *)
(** ** Enriched variant: what the lookup by id is made of *)

Lemma findProduct_after_initialize s doc productId ps :
  products (attributes doc) = Some ps ->
  findProduct (initialize s doc) productId
  = Js.Returned (firstWithId productId ps).
Proof.
  intros Hps. unfold findProduct. rewrite initialize_maps; simpl.
  now rewrite Hps.
Qed.

(** The record built right after an [initialize]: the criteria are read
    from the map, hence from the last product carrying the id, the addon
    type from the scan of the sequence, hence from the first one. *)
Lemma getCriteriaByProductId_after_initialize s doc productId ps F L addon :
  products (attributes doc) = Some ps ->
  firstWithId productId ps = Some F ->
  lastWithId productId ps = Some L ->
  Js.get (addonsMap (initialize s doc)) (product_addonType F) = Some addon ->
  getCriteriaByProductId (initialize s doc) productId
  = Js.Returned
      (Some (mkEnrichedCriteria
               productId (product_addonType F) (product_matchCriteria L)
               (traverseTree (addon_tree addon) (product_matchCriteria L) [])
               addon)).
Proof.
  intros Hps HF HL Haddon. unfold getCriteriaByProductId.
  rewrite initialize_productIdToCriteria.
  unfold productList. rewrite Hps.
  unfold lastWithId in HL. rewrite HL.
  rewrite (findProduct_after_initialize s doc productId ps Hps), HF.
  now rewrite Haddon.
Qed.

Lemma In_productList_products doc P :
  In P (productList doc) ->
  products (attributes doc) = Some (productList doc).
Proof.
  unfold productList. destruct (products (attributes doc)); [reflexivity|].
  intros [].
Qed.

(** X13. Round trip from id to the enriched record: right after an
    [initialize], on any earlier state, a product of the document whose
    addon type names an addon of the document is answered with its own
    id, addon type and criteria, the options its criteria select in the
    tree of that addon, and that addon, provided product ids and addon
    ids of the document differ pairwise. *)
Theorem getCriteriaByProductId_enriched_round_trip :
  forall (s : ProductLookupService) (doc : ProductData)
         (P : Product) (addon : Addon),
    NoDup (map product_id (productList doc)) ->
    NoDup (map addon_id (addonList doc)) ->
    In P (productList doc) ->
    In addon (addonList doc) ->
    addon_id addon = product_addonType P ->
    getCriteriaByProductId (initialize s doc) (product_id P)
    = Js.Returned
        (Some (mkEnrichedCriteria
                 (product_id P) (product_addonType P)
                 (product_matchCriteria P)
                 (traverseTree (addon_tree addon)
                               (product_matchCriteria P) [])
                 addon)).
Proof.
  intros s doc P addon HndP HndA HinP HinA Htype.
  apply (getCriteriaByProductId_after_initialize
           s doc (product_id P) (productList doc) P P addon).
  - now apply (In_productList_products doc P).
  - now apply find_NoDup.
  - now apply find_rev_NoDup.
  - rewrite initialize_addonsMap, <- Htype.
    now rewrite (find_rev_NoDup addon_id _ addon HndA HinA).
Qed.

Lemma getCriteriaByProductId_enriched_round_trip_witness :
  let s := initialize new Sample.catalogWithDuplicates in
  getCriteriaByProductId (initialize s Sample.catalog)
    "8796158984193"%string
  = Js.Returned
      (Some (mkEnrichedCriteria
               "8796158984193"%string "firewall"%string
               [("vendor", "fortigate"); ("cpu", "2-cpu")]%string
               (traverseTree Sample.vendorNode
                             [("vendor", "fortigate"); ("cpu", "2-cpu")]%string
                             [])
               Sample.firewall)).
Proof.
  intros s.
  apply (getCriteriaByProductId_enriched_round_trip
           s Sample.catalog Sample.forti2 Sample.firewall).
  - distinct_strings.
  - distinct_strings.
  - simpl. right. now left.
  - simpl. now left.
  - reflexivity.
Defined.

(** X14. Two products sharing an id are mixed by the enriched lookup: the
    criteria of the answer are those of the later product (the map was
    overwritten), its addon type and addon are those of the earlier one
    (the scan stops at the first). *)
Theorem getCriteriaByProductId_mixes_duplicate_ids :
  forall (s : ProductLookupService) (doc : ProductData)
         (before middle after : list Product) (F L : Product)
         (addon : Addon),
    products (attributes doc) = Some (before ++ F :: middle ++ L :: after) ->
    product_id L = product_id F ->
    (forall Q, In Q before -> product_id Q <> product_id F) ->
    (forall Q, In Q after -> product_id Q <> product_id F) ->
    Js.get (addonsMap (initialize s doc)) (product_addonType F) = Some addon ->
    getCriteriaByProductId (initialize s doc) (product_id F)
    = Js.Returned
        (Some (mkEnrichedCriteria
                 (product_id F) (product_addonType F)
                 (product_matchCriteria L)
                 (traverseTree (addon_tree addon)
                               (product_matchCriteria L) [])
                 addon)).
Proof.
  intros s doc before middle after F L addon Hps Hid Hbefore Hafter Haddon.
  apply (getCriteriaByProductId_after_initialize
           s doc (product_id F) _ F L addon Hps); [| |exact Haddon].
  - now apply find_first.
  - unfold lastWithId. rewrite <- Hid.
    change (before ++ F :: middle ++ L :: after)
      with (before ++ (F :: middle) ++ L :: after).
    rewrite app_assoc. apply find_rev_last.
    intros Q HQ. rewrite Hid. now apply Hafter.
Qed.

Lemma getCriteriaByProductId_mixes_duplicate_ids_witness :
  product_addonType Sample.paloBis = "waf"%string
  /\ getCriteriaByProductId
       (initialize new Sample.catalogWithDuplicates)
       "01HE1D78EC698B5C41F4A889"%string
     = Js.Returned
         (Some (mkEnrichedCriteria
                  "01HE1D78EC698B5C41F4A889"%string "firewall"%string
                  [("vendor", "palo-alto-v2")]%string
                  []
                  Sample.firewall)).
Proof.
  split; [reflexivity|].
  apply (getCriteriaByProductId_mixes_duplicate_ids
           new Sample.catalogWithDuplicates
           [Sample.forti4] [Sample.forti4bis] [] Sample.palo Sample.paloBis
           Sample.firewall).
  - reflexivity.
  - reflexivity.
  - intros Q [<-|[]]. discriminate.
  - intros Q [].
  - reflexivity.
Defined.

(** X15. Whatever record the enriched lookup answers with, in any state
    the service goes through, is made of what the service holds: the
    queried id, the criteria stored under it, an addon registered under
    the addon type of the record and carrying that type as its id, and
    the options the criteria select in the tree of that addon, one per
    id and no more than the tree is deep. *)
Theorem getCriteriaByProductId_result_consistent :
  forall (s : ProductLookupService) (productId : string)
         (e : EnrichedCriteria),
    reachable s ->
    getCriteriaByProductId s productId = Js.Returned (Some e) ->
    ec_productId e = productId
    /\ Js.get (productIdToCriteria s) productId = Some (ec_matchCriteria e)
    /\ Js.get (addonsMap s) (ec_addonType e) = Some (ec_addon e)
    /\ addon_id (ec_addon e) = ec_addonType e
    /\ (exists product,
           findProduct s productId = Js.Returned (Some product)
           /\ product_id product = productId
           /\ product_addonType product = ec_addonType e)
    /\ ec_selectedOptions e
       = traverseTree (addon_tree (ec_addon e)) (ec_matchCriteria e) []
    /\ Js.wf (ec_selectedOptions e)
    /\ length (ec_selectedOptions e) <= depth (addon_tree (ec_addon e)).
Proof.
  intros s productId e Hs. unfold getCriteriaByProductId.
  destruct (Js.get (productIdToCriteria s) productId) as [mc|];
    [|discriminate].
  destruct (findProduct s productId) as [[product|]|] eqn:Efind;
    try discriminate.
  destruct (Js.get (addonsMap s) (product_addonType product))
    as [addon|] eqn:Eaddon; [|discriminate].
  intros [= <-]; simpl.
  destruct (traverseTree_bounds (depth (addon_tree addon))
              (addon_tree addon) mc [] (le_n _)) as [Hwf Hlen].
  repeat split; try assumption.
  - now apply (reachable_addon_keys s Hs).
  - exists product. split; [reflexivity|]. split; [|reflexivity].
    unfold findProduct in Efind.
    destruct (data s) as [d|]; [|discriminate].
    destruct (products (attributes d)) as [l|]; [|discriminate].
    injection Efind as Efind. now apply find_some_key in Efind.
  - apply Hwf. constructor.
Qed.

Lemma getCriteriaByProductId_result_consistent_witness :
  let s := initialize (initialize new Sample.catalog) Sample.laterCatalog in
  exists e,
    getCriteriaByProductId s "01HE1D78EC698B5C41F4A889"%string
    = Js.Returned (Some e)
    /\ addon_id (ec_addon e) = ec_addonType e.
Proof.
  intros s.
  assert (Hs : reachable s) by (repeat constructor).
  eexists. split; [reflexivity|].
  refine (proj1 (proj2 (proj2 (proj2
            (getCriteriaByProductId_result_consistent
               s "01HE1D78EC698B5C41F4A889"%string _ Hs _))))).
  reflexivity.
Defined.

(** X16. Running [initialize] twice in a row with the same document is
    the same as running it once, in every state the service goes
    through. *)
Theorem initialize_idempotent :
  forall (s : ProductLookupService) (doc : ProductData),
    reachable s ->
    initialize (initialize s doc) doc = initialize s doc.
Proof.
  intros s doc Hs. destruct (reachable_wf s Hs) as [H1 [H2 H3]].
  rewrite (initialize_maps (initialize s doc) doc).
  rewrite (initialize_maps s doc); simpl.
  unfold keyEntry, idEntry, addonEntry.
  rewrite (fold_set_idempotent canonicalKeyOf product_id _ _ H1).
  rewrite (fold_set_idempotent product_id product_matchCriteria _ _ H2).
  rewrite (fold_set_idempotent addon_id (fun a => a) _ _ H3).
  reflexivity.
Qed.

Lemma initialize_idempotent_witness :
  let s := initialize new Sample.catalogWithDuplicates in
  reachable s
  /\ initialize (initialize s Sample.catalog) Sample.catalog
     = initialize s Sample.catalog.
Proof.
  intros s.
  assert (Hs : reachable s) by (repeat constructor).
  split; [exact Hs|].
  exact (initialize_idempotent s Sample.catalog Hs).
Defined.

(** X17. The enriched lookup throws in one situation only: criteria are
    stored under the id and the document loaded last has no products
    sequence to scan.  A service that was never initialized answers
    absent instead, its map being empty. *)
Theorem getCriteriaByProductId_throws_iff :
  forall (s : ProductLookupService) (productId : string),
    reachable s ->
    (getCriteriaByProductId s productId = Js.Thrown <->
     Js.get (productIdToCriteria s) productId <> None
     /\ exists doc, data s = Some doc /\ products (attributes doc) = None).
Proof.
  intros s productId Hs. unfold getCriteriaByProductId, findProduct.
  destruct (Js.get (productIdToCriteria s) productId) as [mc|] eqn:Estored.
  - destruct (data s) as [d|] eqn:Edata.
    + destruct (products (attributes d)) as [l|] eqn:Eps.
      * split.
        -- destruct (find _ l) as [p|]; [|discriminate].
           destruct (Js.get (addonsMap s) (product_addonType p));
             discriminate.
        -- intros [_ [doc [[= <-] Hnone]]]. congruence.
      * split; [|reflexivity]. intros _.
        split; [discriminate|]. now exists d.
    + exfalso. rewrite (reachable_unloaded s Hs Edata) in Estored.
      discriminate.
  - split; [discriminate|]. intros [H _]. now elim H.
Qed.

Lemma getCriteriaByProductId_throws_iff_witness :
  let s := initialize (initialize new Sample.catalog)
                      MoreSamples.withoutProducts in
  reachable s
  /\ getCriteriaByProductId s "8800190627841"%string = Js.Thrown
  /\ getCriteriaByProductId new "8800190627841"%string = Js.Returned None.
Proof.
  intros s.
  assert (Hs : reachable s) by (repeat constructor).
  split; [exact Hs|]. split; [|reflexivity].
  apply (proj2 (getCriteriaByProductId_throws_iff
                  s "8800190627841"%string Hs)).
  split; [discriminate|].
  exists MoreSamples.withoutProducts. split; reflexivity.
Defined.

(** X18. The two lookups of the enriched service compose on a service
    initialized once from a document in which every product names an
    addon of the document: an id answered by the lookup by criteria is
    always answered with a record, carrying that id, by the lookup by
    id. *)
Theorem enriched_lookups_compose :
  forall (doc : ProductData) (criteria : MatchCriteria) (productId : string),
    (forall P, In P (productList doc) ->
               exists addon, In addon (addonList doc)
                             /\ addon_id addon = product_addonType P) ->
    getProductIdByCriteria (initialize new doc) criteria = Some productId ->
    exists e,
      getCriteriaByProductId (initialize new doc) productId
      = Js.Returned (Some e)
      /\ ec_productId e = productId.
Proof.
  intros doc criteria productId Hregistered Hfound.
  rewrite initialize_getProductIdByCriteria in Hfound.
  destruct (find _ (rev (productList doc))) as [P|] eqn:Ekey;
    [|discriminate].
  injection Hfound as <-.
  apply find_some_key in Ekey. destruct Ekey as [HinP _].
  apply in_rev in HinP.
  pose proof (In_productList_products doc P HinP) as Hps.
  destruct (firstWithId (product_id P) (productList doc)) as [F|] eqn:EF;
    [|now elim (find_key_present product_id (productList doc) P HinP)].
  destruct (lastWithId (product_id P) (productList doc)) as [L|] eqn:EL.
  2:{ apply in_rev in HinP.
      now elim (find_key_present product_id (rev (productList doc)) P HinP). }
  assert (HinF : In F (productList doc)).
  { unfold firstWithId in EF. now apply find_some_key in EF. }
  destruct (Hregistered F HinF) as [a [Ha Htype]].
  destruct (Js.get (addonsMap (initialize new doc)) (product_addonType F))
    as [addon|] eqn:Eaddon.
  - exists (mkEnrichedCriteria
              (product_id P) (product_addonType F) (product_matchCriteria L)
              (traverseTree (addon_tree addon) (product_matchCriteria L) [])
              addon).
    split; [|reflexivity].
    now apply (getCriteriaByProductId_after_initialize
                 new doc (product_id P) (productList doc) F L addon).
  - exfalso. rewrite initialize_addonsMap in Eaddon. rewrite <- Htype in Eaddon.
    apply in_rev in Ha.
    destruct (find (fun a0 => String.eqb (addon_id a0) (addon_id a))
                   (rev (addonList doc))) eqn:Efind; [discriminate|].
    exact (find_key_present addon_id _ a Ha Efind).
Qed.

Lemma enriched_lookups_compose_witness :
  exists e,
    getCriteriaByProductId (initialize new Sample.catalog)
      "8800190627841"%string = Js.Returned (Some e)
    /\ ec_productId e = "8800190627841"%string.
Proof.
  apply (enriched_lookups_compose
           Sample.catalog
           [("cpu", "4-cpu"); ("vendor", "fortigate")]%string).
  - simpl. intros P [<-|[<-|[<-|[]]]];
      exists Sample.firewall; (split; [now left | reflexivity]).
  - reflexivity.
Defined.

(** Without the registered addon the composition breaks: the product is
    found by its criteria and the lookup of its id answers absent. *)
Example orphan_product_has_no_record :
  getProductIdByCriteria (initialize new MoreSamples.catalogWithOrphan)
    [("vendor", "f5")]%string = Some "7700000000001"%string
  /\ getCriteriaByProductId (initialize new MoreSamples.catalogWithOrphan)
       "7700000000001"%string = Js.Returned None.
Proof. split; reflexivity. Qed.

Lemma traverseTree_reads_only_gets fuel :
  forall node (c1 c2 : MatchCriteria) sel,
    depth node <= fuel ->
    (forall key, Js.get c1 key = Js.get c2 key) ->
    traverseTree node c1 sel = traverseTree node c2 sel.
Proof.
  induction fuel as [|fuel IH]; intros node c1 c2 sel Hfuel Hget.
  - rewrite depth_unfold in Hfuel. lia.
  - rewrite (traverseTree_eq node c1), (traverseTree_eq node c2), Hget.
    destruct (Js.get c2 (node_id node)) as [v|]; [|reflexivity].
    destruct (Js.truthy (Some v)); [|reflexivity].
    destruct (findOption node v) as [option|] eqn:Hfind; [|reflexivity].
    cbv zeta.
    destruct (opt_children option) as [children|] eqn:Hch; [|reflexivity].
    apply IH; [|assumption].
    apply findOption_In in Hfind.
    pose proof (depth_child_lt node option children (proj1 Hfind) Hch). lia.
Qed.

(** X19. The tree walk does not depend on the insertion order of the
    criteria: two mappings holding the same pairs select the same
    options. *)
Theorem traverseTree_order_independent :
  forall (node : TreeNode) (c1 c2 : MatchCriteria)
         (selectedOptions : SelectedOptions),
    Js.wf c1 ->
    Permutation c1 c2 ->
    traverseTree node c1 selectedOptions
    = traverseTree node c2 selectedOptions.
Proof.
  intros node c1 c2 sel Hwf Hperm.
  apply (traverseTree_reads_only_gets (depth node)); [lia|].
  intros key. now apply get_Permutation.
Qed.

Lemma traverseTree_order_independent_witness :
  traverseTree Sample.vendorNode
               [("vendor", "fortigate"); ("cpu", "4-cpu")]%string []
  = traverseTree Sample.vendorNode
                 [("cpu", "4-cpu"); ("vendor", "fortigate")]%string [].
Proof.
  apply traverseTree_order_independent.
  - distinct_strings.
  - apply perm_swap.
Defined.
